(** * AdAuctionFHE: a shallow embedding of the auction contract

    The contract [AdAuctionFHE] keeps sealed bids in batches, folds a
    closed batch into two ciphertexts, asks a decryption oracle for
    their cleartexts and settles on the oracle's callback.

    The embedding follows the Solidity source function by function.
    Storage is a record, mappings are finite maps read with a zero
    default, [uint256] is [N] with the checked arithmetic of Solidity
    0.8 written out, and every external function is a computation in a
    small state-and-revert monad.  The encrypted-integer library and
    keccak256 are not part of the contract: they are interfaces
    ([FHE.Lib], [Keccak]) the development is parametric in.

    Not embedded: the public getters of the storage variables, and the
    two internal functions [_initIfNeeded] and [_requireInitialized],
    which no function of the contract calls. *)

From Stdlib Require Import NArith Strings.Byte.
From stdpp Require Import base decidable option numbers list sorting gmap.

Local Open Scope N_scope.

(** ** Machine integers *)

Definition address := N.
Definition bytes32 := N.

Definition UINT256_MAX : N := 2 ^ 256 - 1.
Definition UINT32_MAX : N := 2 ^ 32 - 1.

(** [1 days] in Solidity's time units. *)
Definition ONE_DAY : N := 86400.

(** ** External capabilities *)

Module FHE.

(** The encrypted 32-bit integers of the FHE library, as the contract
    uses them: comparison, oblivious selection, export of the handle,
    and the verification of the oracle's signatures. [cleartext] is
    the boolean the source reads off an [ebool]. *)
Class Lib := {
  euint32 : Type;
  ebool : Type;
  ge : euint32 → euint32 → ebool;
  select : euint32 → euint32 → ebool → euint32;
  cleartext : ebool → bool;
  toBytes32 : euint32 → bytes32;
  checkSignatures : N → list byte → list byte → bool;
  (** what the oracle answers when asked to decrypt a ciphertext *)
  decrypt : euint32 → N
}.

(** Modelled from the spec: the FHE library is not part of the
    repository; these are the meanings the spec gives to
    [greaterOrEqual] and [select(a, b, cond)] ("keeps a if cond, else
    adopts b"), and the fact that a handle names one ciphertext. *)
Class Lawful (L : Lib) := {
  cleartext_ge : ∀ a b, cleartext (ge a b) = (decrypt b <=? decrypt a);
  decrypt_select : ∀ a b c,
    decrypt (select a b c) = if cleartext c then decrypt a else decrypt b;
  decrypt_handle : ∀ a b, toBytes32 a = toBytes32 b → decrypt a = decrypt b
}.

End FHE.

(** [keccak256(abi.encode(cts, address(this)))]. Digests are [bytes32]
    in the source; the contract only ever compares a digest with a
    digest, so they get a type of their own here. *)
Class Keccak := {
  digest : Type;
  digest_eq_dec :: EqDecision digest;
  digest_zero : digest;
  keccak256_encode : list bytes32 → address → digest
}.

(** Collision freedom of the digest, where a theorem needs it. *)
Class CollisionFree (K : Keccak) := {
  keccak256_encode_inj : ∀ cts cts' a,
    keccak256_encode cts a = keccak256_encode cts' a → cts = cts'
}.

(** ** Solidity mappings *)

(** Every key of a mapping reads as the zero value of the value type
    until it is written. *)
Class Zero (V : Type) := zero : V.

Definition mget {V} `{Zero V} (m : gmap N V) (k : N) : V :=
  default zero (m !! k).

Global Instance zero_bool : Zero bool := false.
Global Instance zero_N : Zero N := 0.

(** ** Errors and events *)

Inductive error :=
  | NotOwner | NotProvider | Paused | CooldownActive
  | BatchClosed | BatchFull | InvalidBatch
  | InvalidStateHash | ReplayDetected | InvalidProof
  | NoBids | NotEnoughBids
  (** [Panic(0x11)], arithmetic overflow of checked [uint256] arithmetic *)
  | PanicOverflow
  (** [Panic(0x32)], array index out of bounds *)
  | PanicIndex
  (** a revert without data: a slice out of range or an ill-formed ABI word *)
  | DecodeFailure
  (** a revert raised inside the FHE library, with the library's own
      error: [FHE.checkSignatures] refused the proof *)
  | LibraryRevert.

Global Instance error_eq_dec : EqDecision error.
Proof. solve_decision. Defined.

Inductive event :=
  | OwnershipTransferred (previousOwner newOwner : address)
  | ProviderAdded (provider : address)
  | ProviderRemoved (provider : address)
  | ContractPaused (account : address)
  | ContractUnpaused (account : address)
  | CooldownSecondsUpdated (oldCooldownSeconds newCooldownSeconds : N)
  | BatchOpened (batchId closeTimestamp : N)
  | BatchClosedEvent (batchId : N)
  | BidSubmitted (bidder : address) (batchId : N)
  | DecryptionRequested (requestId batchId : N)
  | AuctionSettled (batchId highestBidAmount : N) (highestBidder : address)
                   (secondHighestBidAmount : N)
  (** the outgoing call [FHE.requestDecryption(cts, selector)] *)
  | RequestDecryptionCall (cts : list bytes32).

(** ** Storage *)

Section Contract.

Context {L : FHE.Lib} {K : Keccak}.

Record Bid := {
  encryptedBidAmount : FHE.euint32;
  encryptedAdQualityScore : FHE.euint32;
  bidder : address
}.

Record AuctionBatch := {
  batchId : N;
  isOpen : bool;
  closeTimestamp : N;
  bids : list Bid
}.

(** The fields of [DecryptionContext] carry a prefix: [batchId] is
    taken by [AuctionBatch]. *)
Record DecryptionContext := {
  ctx_batchId : N;
  ctx_stateHash : digest;
  ctx_processed : bool
}.

Global Instance zero_AuctionBatch : Zero AuctionBatch :=
  {| batchId := 0; isOpen := false; closeTimestamp := 0; bids := [] |}.

Global Instance zero_DecryptionContext : Zero DecryptionContext :=
  {| ctx_batchId := 0; ctx_stateHash := digest_zero; ctx_processed := false |}.

Record State := {
  owner : address;
  providers : gmap N bool;
  paused : bool;
  cooldownSeconds : N;
  lastSubmissionTime : gmap N N;
  lastDecryptionRequestTime : gmap N N;
  batches : gmap N AuctionBatch;
  decryptionContexts : gmap N DecryptionContext;
  currentBatchId : N
}.

Definition MAX_BIDS_PER_BATCH : N := 100.

(** Storage before the constructor runs: all zero. *)
Definition empty_storage : State :=
  {| owner := 0; providers := ∅; paused := false; cooldownSeconds := 0;
     lastSubmissionTime := ∅; lastDecryptionRequestTime := ∅;
     batches := ∅; decryptionContexts := ∅; currentBatchId := 0 |}.

(** Field assignments. *)
Definition set_owner (a : address) (s : State) : State :=
  {| owner := a; providers := providers s; paused := paused s;
     cooldownSeconds := cooldownSeconds s;
     lastSubmissionTime := lastSubmissionTime s;
     lastDecryptionRequestTime := lastDecryptionRequestTime s;
     batches := batches s; decryptionContexts := decryptionContexts s;
     currentBatchId := currentBatchId s |}.

Definition set_providers (m : gmap N bool) (s : State) : State :=
  {| owner := owner s; providers := m; paused := paused s;
     cooldownSeconds := cooldownSeconds s;
     lastSubmissionTime := lastSubmissionTime s;
     lastDecryptionRequestTime := lastDecryptionRequestTime s;
     batches := batches s; decryptionContexts := decryptionContexts s;
     currentBatchId := currentBatchId s |}.

Definition set_paused (b : bool) (s : State) : State :=
  {| owner := owner s; providers := providers s; paused := b;
     cooldownSeconds := cooldownSeconds s;
     lastSubmissionTime := lastSubmissionTime s;
     lastDecryptionRequestTime := lastDecryptionRequestTime s;
     batches := batches s; decryptionContexts := decryptionContexts s;
     currentBatchId := currentBatchId s |}.

Definition set_cooldownSeconds (c : N) (s : State) : State :=
  {| owner := owner s; providers := providers s; paused := paused s;
     cooldownSeconds := c;
     lastSubmissionTime := lastSubmissionTime s;
     lastDecryptionRequestTime := lastDecryptionRequestTime s;
     batches := batches s; decryptionContexts := decryptionContexts s;
     currentBatchId := currentBatchId s |}.

Definition set_lastSubmissionTime (m : gmap N N) (s : State) : State :=
  {| owner := owner s; providers := providers s; paused := paused s;
     cooldownSeconds := cooldownSeconds s;
     lastSubmissionTime := m;
     lastDecryptionRequestTime := lastDecryptionRequestTime s;
     batches := batches s; decryptionContexts := decryptionContexts s;
     currentBatchId := currentBatchId s |}.

Definition set_lastDecryptionRequestTime (m : gmap N N) (s : State) : State :=
  {| owner := owner s; providers := providers s; paused := paused s;
     cooldownSeconds := cooldownSeconds s;
     lastSubmissionTime := lastSubmissionTime s;
     lastDecryptionRequestTime := m;
     batches := batches s; decryptionContexts := decryptionContexts s;
     currentBatchId := currentBatchId s |}.

Definition set_batches (m : gmap N AuctionBatch) (s : State) : State :=
  {| owner := owner s; providers := providers s; paused := paused s;
     cooldownSeconds := cooldownSeconds s;
     lastSubmissionTime := lastSubmissionTime s;
     lastDecryptionRequestTime := lastDecryptionRequestTime s;
     batches := m; decryptionContexts := decryptionContexts s;
     currentBatchId := currentBatchId s |}.

Definition set_decryptionContexts (m : gmap N DecryptionContext) (s : State) : State :=
  {| owner := owner s; providers := providers s; paused := paused s;
     cooldownSeconds := cooldownSeconds s;
     lastSubmissionTime := lastSubmissionTime s;
     lastDecryptionRequestTime := lastDecryptionRequestTime s;
     batches := batches s; decryptionContexts := m;
     currentBatchId := currentBatchId s |}.

Definition set_currentBatchId (n : N) (s : State) : State :=
  {| owner := owner s; providers := providers s; paused := paused s;
     cooldownSeconds := cooldownSeconds s;
     lastSubmissionTime := lastSubmissionTime s;
     lastDecryptionRequestTime := lastDecryptionRequestTime s;
     batches := batches s; decryptionContexts := decryptionContexts s;
     currentBatchId := n |}.

Definition set_isOpen (b : bool) (a : AuctionBatch) : AuctionBatch :=
  {| batchId := batchId a; isOpen := b; closeTimestamp := closeTimestamp a;
     bids := bids a |}.

Definition push_bid (x : Bid) (a : AuctionBatch) : AuctionBatch :=
  {| batchId := batchId a; isOpen := isOpen a;
     closeTimestamp := closeTimestamp a; bids := bids a ++ [x] |}.

Definition set_processed (b : bool) (c : DecryptionContext) : DecryptionContext :=
  {| ctx_batchId := ctx_batchId c; ctx_stateHash := ctx_stateHash c;
     ctx_processed := b |}.

(** ** Transactions *)

(** What a call sees of its transaction: [msg.sender],
    [block.timestamp], [address(this)], and the request id the
    decryption oracle hands back if the call asks for a decryption. *)
Record Env := {
  msg_sender : address;
  block_timestamp : N;
  this : address;
  oracle_requestId : N
}.

(** A running call holds the storage and the log written so far. A call
    ends with a value or reverts with an error; the store at that point
    is kept, so that one can see what a reverting call had written. *)
Definition Store : Type := State * list event.

Inductive outcome (A : Type) :=
  | Returned (a : A) (σ : Store)
  | Reverted (e : error) (σ : Store).

Arguments Returned {A} a σ.
Arguments Reverted {A} e σ.

Definition M (A : Type) : Type := Store → outcome A.

Definition ret {A} (a : A) : M A := fun σ => Returned a σ.

Definition bind {A B} (m : M A) (k : A → M B) : M B :=
  fun σ => match m σ with
           | Returned a σ' => k a σ'
           | Reverted e σ' => Reverted e σ'
           end.

Definition revert {A} (e : error) : M A := fun σ => Reverted e σ.

Definition get : M State := fun σ => Returned (fst σ) σ.

Definition modify (f : State → State) : M unit :=
  fun σ => Returned tt (f (fst σ), snd σ).

Definition emit (ev : event) : M unit :=
  fun σ => Returned tt (fst σ, snd σ ++ [ev]).

(** [if (cond) revert E();] *)
Definition revert_if (cond : bool) (e : error) : M unit :=
  if cond then revert e else ret tt.

(** Checked [uint256] addition. *)
Definition checked_add (a b : N) : M N :=
  if a + b <=? UINT256_MAX then ret (a + b) else revert PanicOverflow.

(** [arr[i]] on a storage array. *)
Definition index {A} (arr : list A) (i : nat) : M A :=
  match arr !! i with
  | Some x => ret x
  | None => revert PanicIndex
  end.

End Contract.

Arguments Returned {L K A} a σ.
Arguments Reverted {L K A} e σ.

Notation "x <~ m ; k" := (bind m (fun x => k))
  (at level 20, m at level 100, k at level 200, only parsing).
Notation "m ;~ k" := (bind m (fun _ => k))
  (at level 100, k at level 200, only parsing, right associativity).

(** ** The contract *)

Section Functions.

Context {L : FHE.Lib} {K : Keccak}.

(** *** Modifiers *)

Definition onlyOwner (env : Env) : M unit :=
  s <~ get ;
  revert_if (negb (msg_sender env =? owner s)) NotOwner.

Definition onlyProvider (env : Env) : M unit :=
  s <~ get ;
  revert_if (negb (mget (providers s) (msg_sender env))) NotProvider.

Definition whenNotPaused : M unit :=
  s <~ get ;
  revert_if (paused s) Paused.

(** *** Administration *)

Definition transferOwnership (env : Env) (newOwner : address) : M unit :=
  onlyOwner env ;~
  s <~ get ;
  let previousOwner := owner s in
  modify (set_owner newOwner) ;~
  emit (OwnershipTransferred previousOwner newOwner).

Definition addProvider (env : Env) (provider : address) : M unit :=
  onlyOwner env ;~
  modify (fun s => set_providers (<[provider := true]> (providers s)) s) ;~
  emit (ProviderAdded provider).

Definition removeProvider (env : Env) (provider : address) : M unit :=
  onlyOwner env ;~
  modify (fun s => set_providers (<[provider := false]> (providers s)) s) ;~
  emit (ProviderRemoved provider).

Definition setPaused (env : Env) (_paused : bool) : M unit :=
  onlyOwner env ;~
  if _paused then
    modify (set_paused true) ;~
    emit (ContractPaused (msg_sender env))
  else
    modify (set_paused false) ;~
    emit (ContractUnpaused (msg_sender env)).

Definition setCooldownSeconds (env : Env) (_cooldownSeconds : N) : M unit :=
  onlyOwner env ;~
  s <~ get ;
  let oldCooldownSeconds := cooldownSeconds s in
  modify (set_cooldownSeconds _cooldownSeconds) ;~
  emit (CooldownSecondsUpdated oldCooldownSeconds _cooldownSeconds).

(** *** Batches *)

(** [uint256 batchId = currentBatchId++;] and the new batch. *)
Definition _openNewBatch (_closeTimestamp : N) : M unit :=
  s <~ get ;
  let batchId := currentBatchId s in
  next <~ checked_add batchId 1 ;
  modify (set_currentBatchId next) ;~
  modify (fun s => set_batches
    (<[batchId := {| batchId := batchId; isOpen := true;
                     closeTimestamp := _closeTimestamp; bids := [] |}]>
       (batches s)) s) ;~
  emit (BatchOpened batchId _closeTimestamp).

Definition constructor (env : Env) : M unit :=
  modify (set_owner (msg_sender env)) ;~
  modify (fun s => set_providers (<[owner s := true]> (providers s)) s) ;~
  modify (set_cooldownSeconds 30) ;~
  modify (set_currentBatchId 1) ;~
  deadline <~ checked_add (block_timestamp env) ONE_DAY ;
  _openNewBatch deadline.

Definition openBatch (env : Env) (_closeTimestamp : N) : M unit :=
  onlyOwner env ;~
  whenNotPaused ;~
  _openNewBatch _closeTimestamp.

Definition closeBatch (env : Env) (batchId : N) : M unit :=
  onlyOwner env ;~
  whenNotPaused ;~
  s <~ get ;
  revert_if ((currentBatchId s <=? batchId)
             || negb (isOpen (mget (batches s) batchId))) InvalidBatch ;~
  modify (fun s => set_batches
    (<[batchId := set_isOpen false (mget (batches s) batchId)]> (batches s)) s) ;~
  emit (BatchClosedEvent batchId).

(** *** Bids *)

Definition submitBid (env : Env) (batchId : N)
    (encryptedBidAmount encryptedAdQualityScore : FHE.euint32) : M unit :=
  onlyProvider env ;~
  whenNotPaused ;~
  s <~ get ;
  earliest <~ checked_add (mget (lastSubmissionTime s) (msg_sender env))
                          (cooldownSeconds s) ;
  revert_if (block_timestamp env <? earliest) CooldownActive ;~
  revert_if ((currentBatchId s <=? batchId)
             || negb (isOpen (mget (batches s) batchId))) BatchClosed ;~
  revert_if (MAX_BIDS_PER_BATCH <=? N.of_nat (length (bids (mget (batches s) batchId))))
            BatchFull ;~
  modify (fun s => set_lastSubmissionTime
    (<[msg_sender env := block_timestamp env]> (lastSubmissionTime s)) s) ;~
  modify (fun s => set_batches
    (<[batchId := push_bid
         {| encryptedBidAmount := encryptedBidAmount;
            encryptedAdQualityScore := encryptedAdQualityScore;
            bidder := msg_sender env |}
         (mget (batches s) batchId)]> (batches s)) s) ;~
  emit (BidSubmitted (msg_sender env) batchId).

(** *** Settlement *)

(** The four locals of [requestAuctionSettlement]. *)
Record Tournament := {
  encryptedHighestBidAmount : FHE.euint32;
  encryptedSecondHighestBidAmount : FHE.euint32;
  highestBidder : address;
  secondHighestBidder : address
}.

(** One iteration of the [for] loop, on [bids[i]]. *)
Definition tournament_round (t : Tournament) (b : Bid) : Tournament :=
  let isCurrentHigher :=
    FHE.ge (encryptedHighestBidAmount t) (encryptedBidAmount b) in
  let newHighest :=
    FHE.select (encryptedHighestBidAmount t) (encryptedBidAmount b) isCurrentHigher in
  let newSecondHighest :=
    FHE.select (encryptedSecondHighestBidAmount t) (encryptedHighestBidAmount t)
               isCurrentHigher in
  let newHighestBidder :=
    if FHE.cleartext isCurrentHigher then highestBidder t else bidder b in
  let newSecondHighestBidder :=
    if FHE.cleartext isCurrentHigher then highestBidder t else secondHighestBidder t in
  {| encryptedHighestBidAmount := newHighest;
     encryptedSecondHighestBidAmount := newSecondHighest;
     highestBidder := newHighestBidder;
     secondHighestBidder := newSecondHighestBidder |}.

(** The seed from slots 0 and 1, then [for (uint i = 2; i < length; i++)]. *)
Definition tournament (b0 b1 : Bid) (rest : list Bid) : Tournament :=
  fold_left tournament_round rest
    {| encryptedHighestBidAmount := encryptedBidAmount b0;
       encryptedSecondHighestBidAmount := encryptedBidAmount b1;
       highestBidder := bidder b0;
       secondHighestBidder := bidder b1 |}.

(** [cts[0]] and [cts[1]] as the request builds them. *)
Definition tournament_cts (t : Tournament) : list bytes32 :=
  [FHE.toBytes32 (encryptedHighestBidAmount t);
   FHE.toBytes32 (encryptedSecondHighestBidAmount t)].

Definition _hashCiphertexts (env : Env) (cts : list bytes32) : digest :=
  keccak256_encode cts (this env).

Definition requestAuctionSettlement (env : Env) (batchId : N) : M unit :=
  onlyOwner env ;~
  whenNotPaused ;~
  s <~ get ;
  revert_if ((currentBatchId s <=? batchId)
             || isOpen (mget (batches s) batchId)) InvalidBatch ;~
  revert_if (N.of_nat (length (bids (mget (batches s) batchId))) =? 0) NoBids ;~
  revert_if (N.of_nat (length (bids (mget (batches s) batchId))) <? 2) NotEnoughBids ;~
  earliest <~ checked_add (mget (lastDecryptionRequestTime s) (msg_sender env))
                          (cooldownSeconds s) ;
  revert_if (block_timestamp env <? earliest) CooldownActive ;~
  modify (fun s => set_lastDecryptionRequestTime
    (<[msg_sender env := block_timestamp env]> (lastDecryptionRequestTime s)) s) ;~
  s <~ get ;
  b0 <~ index (bids (mget (batches s) batchId)) 0 ;
  b1 <~ index (bids (mget (batches s) batchId)) 1 ;
  let t := tournament b0 b1 (drop 2 (bids (mget (batches s) batchId))) in
  let cts := tournament_cts t in
  let stateHash := _hashCiphertexts env cts in
  emit (RequestDecryptionCall cts) ;~
  let requestId := oracle_requestId env in
  modify (fun s => set_decryptionContexts
    (<[requestId := {| ctx_batchId := batchId; ctx_stateHash := stateHash;
                       ctx_processed := false |}]> (decryptionContexts s)) s) ;~
  emit (DecryptionRequested requestId batchId).

(** [cleartexts[from:to]]: the slice reverts when it runs past the end. *)
Definition slice (bs : list byte) (from to : nat) : M (list byte) :=
  if (to <=? length bs)%nat then ret (take (to - from) (drop from bs))
  else revert DecodeFailure.

(** A 32-byte ABI word read big-endian. *)
Definition word_of_bytes (w : list byte) : N :=
  fold_left (fun acc b => acc * 256 + Byte.to_N b) w 0.

(** [abi.decode(w, (uint32))]: the word must fit 32 bits. *)
Definition abi_decode_uint32 (w : list byte) : M N :=
  if word_of_bytes w <=? UINT32_MAX then ret (word_of_bytes w)
  else revert DecodeFailure.

(** [FHE.checkSignatures] is a bare call: when the proof is not valid
    it reverts inside the library, with the library's error
    ([LibraryRevert]).  The contract declares [InvalidProof] and never
    reverts with it. *)
Definition myCallback (env : Env) (requestId : N) (cleartexts proof : list byte) : M unit :=
  s <~ get ;
  revert_if (ctx_processed (mget (decryptionContexts s) requestId)) ReplayDetected ;~
  let batchId := ctx_batchId (mget (decryptionContexts s) requestId) in
  b0 <~ index (bids (mget (batches s) batchId)) 0 ;
  b1 <~ index (bids (mget (batches s) batchId)) 1 ;
  let cts := [FHE.toBytes32 (encryptedBidAmount b0);
              FHE.toBytes32 (encryptedBidAmount b1)] in
  let currentHash := _hashCiphertexts env cts in
  revert_if (negb (bool_decide
    (currentHash = ctx_stateHash (mget (decryptionContexts s) requestId))))
    InvalidStateHash ;~
  revert_if (negb (FHE.checkSignatures requestId cleartexts proof)) LibraryRevert ;~
  w0 <~ slice cleartexts 0 32 ;
  highestBidAmount <~ abi_decode_uint32 w0 ;
  w1 <~ slice cleartexts 32 64 ;
  secondHighestBidAmount <~ abi_decode_uint32 w1 ;
  modify (fun s => set_decryptionContexts
    (<[requestId := set_processed true (mget (decryptionContexts s) requestId)]>
       (decryptionContexts s)) s) ;~
  s <~ get ;
  b <~ index (bids (mget (batches s) batchId)) 0 ;
  emit (AuctionSettled batchId highestBidAmount (bidder b) secondHighestBidAmount).

(** *** The external interface *)

Inductive call :=
  | TransferOwnership (newOwner : address)
  | AddProvider (provider : address)
  | RemoveProvider (provider : address)
  | SetPaused (_paused : bool)
  | SetCooldownSeconds (_cooldownSeconds : N)
  | OpenBatch (_closeTimestamp : N)
  | CloseBatch (batchId : N)
  | SubmitBid (batchId : N) (encryptedBidAmount encryptedAdQualityScore : FHE.euint32)
  | RequestAuctionSettlement (batchId : N)
  | MyCallback (requestId : N) (cleartexts proof : list byte).

Definition dispatch (env : Env) (c : call) : M unit :=
  match c with
  | TransferOwnership a => transferOwnership env a
  | AddProvider a => addProvider env a
  | RemoveProvider a => removeProvider env a
  | SetPaused b => setPaused env b
  | SetCooldownSeconds n => setCooldownSeconds env n
  | OpenBatch t => openBatch env t
  | CloseBatch b => closeBatch env b
  | SubmitBid b x q => submitBid env b x q
  | RequestAuctionSettlement b => requestAuctionSettlement env b
  | MyCallback r c p => myCallback env r c p
  end.

(** What the chain records of a transaction: a reverted call leaves no
    trace but its error. *)
Inductive receipt :=
  | Success (s' : State) (log : list event)
  | Failure (e : error).

Definition transact (body : M unit) (s : State) : receipt :=
  match body (s, []) with
  | Returned _ (s', log) => Success s' log
  | Reverted e _ => Failure e
  end.

(** Storage after the transaction. *)
Definition storage_after (r : receipt) (s : State) : State :=
  match r with
  | Success s' _ => s'
  | Failure _ => s
  end.

Definition exec (env : Env) (c : call) (s : State) : State :=
  storage_after (transact (dispatch env c) s) s.

(** The storages the contract at address [self] can be in: deployed by
    a successful constructor, then any calls. *)
Inductive reachable (self : address) : State → Prop :=
  | reach_deploy env s log :
      this env = self →
      constructor env (empty_storage, []) = Returned tt (s, log) →
      reachable self s
  | reach_call env c s :
      this env = self →
      reachable self s →
      reachable self (exec env c s).

End Functions.

(** ** Two models of the capabilities, to run the contract on *)

(** Modelled from the spec: the FHE library is an external dependency,
    absent from the repository.  Ciphertexts in the clear: a handle is
    its cleartext, [ge] and [select] are the spec's [greaterOrEqual]
    and [select(a, b, cond)], and a proof is valid when it is not
    empty. *)
Definition ClearFHE : FHE.Lib :=
  {| FHE.euint32 := N;
     FHE.ebool := bool;
     FHE.ge := fun a b => b <=? a;
     FHE.select := fun a b c => if c then a else b;
     FHE.cleartext := fun c => c;
     FHE.toBytes32 := fun a => a;
     FHE.checkSignatures := fun _ _ proof =>
       match proof with [] => false | _ => true end;
     FHE.decrypt := fun a => a |}.

(** Modelled from the spec: the FHE library again, now with "opaque
    ciphertext handles" of their own.  The low 32 bits of a handle hold
    the cleartext, the bits above name the ciphertext, and every
    [select] makes a ciphertext with a handle above those of its
    operands, as a library that allocates a handle per operation does. *)
Definition FreshFHE : FHE.Lib :=
  {| FHE.euint32 := N;
     FHE.ebool := bool;
     FHE.ge := fun a b => (b mod 2 ^ 32) <=? (a mod 2 ^ 32);
     FHE.select := fun a b c =>
       (1 + a + b) * 2 ^ 32 + (if c then a else b) mod 2 ^ 32;
     FHE.cleartext := fun c => c;
     FHE.toBytes32 := fun a => a;
     FHE.checkSignatures := fun _ _ proof =>
       match proof with [] => false | _ => true end;
     FHE.decrypt := fun a => a mod 2 ^ 32 |}.

(** Modelled from the spec: keccak256 is a primitive of the platform.
    Here a digest is the hashed data itself, so that there are no
    collisions. *)
Definition IdealKeccak : Keccak :=
  {| digest := list N;
     digest_eq_dec := _;
     digest_zero := [];
     keccak256_encode := fun cts a => a :: cts |}.

(** A list of transactions run in order; reverted ones change nothing. *)
Definition replay {L : FHE.Lib} {K : Keccak}
    (txs : list (Env * call)) (s : State) : State :=
  fold_left (fun s tx => exec (fst tx) (snd tx) s) txs s.

(** The receipt of one transaction. *)
Definition run {L : FHE.Lib} {K : Keccak} (tx : Env * call) (s : State) : receipt :=
  transact (dispatch (fst tx) (snd tx)) s.

(** Storage after deployment ([empty_storage] if the constructor reverts). *)
Definition deploy {L : FHE.Lib} {K : Keccak} (env : Env) : State :=
  storage_after (transact (constructor env) empty_storage) empty_storage.

Module Scenario.

(** The contract lives at address 99; address 1 deploys it at time 1000
    and authorises bidders 11, 12 and 13. *)
Definition at_time (sender t : N) : Env :=
  {| msg_sender := sender; block_timestamp := t; this := 99;
     oracle_requestId := 7 |}.

(** A 32-byte ABI word holding [n]. *)
Definition abi_word (n : N) : list byte :=
  repeat x00 31 ++ match Byte.of_N n with Some b => [b] | None => [x00] end.

Definition valid_proof : list byte := [x01].

Section Runs.

Context {L : FHE.Lib} {K : Keccak}.

Definition deployed : State := deploy (at_time 1 1000).

Definition with_bidders : State :=
  replay [(at_time 1 1001, AddProvider 11);
          (at_time 1 1002, AddProvider 12);
          (at_time 1 1003, AddProvider 13)] deployed.

(** Three bids into batch 1, from bidders 11, 12, 13 in this order,
    then the batch is closed. *)
Definition closed_with (a b c q : FHE.euint32) : State :=
  replay [(at_time 11 2000, SubmitBid 1 a q);
          (at_time 12 2001, SubmitBid 1 b q);
          (at_time 13 2002, SubmitBid 1 c q);
          (at_time 1 2500, CloseBatch 1)] with_bidders.

(** Two bids only. *)
Definition closed_with2 (a b q : FHE.euint32) : State :=
  replay [(at_time 11 2000, SubmitBid 1 a q);
          (at_time 12 2001, SubmitBid 1 b q);
          (at_time 1 2500, CloseBatch 1)] with_bidders.

Definition request : Env * call := (at_time 1 3000, RequestAuctionSettlement 1).

Definition callback (hi lo : N) : Env * call :=
  (at_time 5 4000, MyCallback 7 (abi_word hi ++ abi_word lo) valid_proof).

(** The owner pauses the contract. *)
Definition pause : Env * call := (at_time 1 3500, SetPaused true).

(** Bidder 11 fills batch 1, one bid every 40 seconds. *)
Definition filling (q : FHE.euint32) : list (Env * call) :=
  map (λ i, (at_time 11 (2000 + 40 * N.of_nat i), SubmitBid 1 q q)) (seq 0 100).

Definition full (q : FHE.euint32) : State := replay (filling q) with_bidders.

End Runs.

(** A bid in the clear model. *)
Definition clear_bid (amount : N) (who : address) : @Bid ClearFHE :=
  @Build_Bid ClearFHE amount 0 who.

End Scenario.

(** ** What the spec asks of the tournament *)

(** In the spec's words: "the true maximum and true second-maximum of
    the sequence" of bid amounts, whatever the submission order.  The
    amounts are sorted, largest first, and the first two are taken. *)
Definition spec_top_two (amounts : list N) : option (N * N) :=
  match merge_sort (flip N.le) amounts with
  | hi :: second :: _ => Some (hi, second)
  | _ => None
  end.

(** ** Well-formed storage *)

Section WellFormed.

Context {L : FHE.Lib} {K : Keccak}.

(** What every reachable storage of the contract at [self] satisfies:
    batch ids start at 1 and end below [currentBatchId], no batch holds
    more than [MAX_BIDS_PER_BATCH] bids, and every decryption context
    was written by a settlement request on a closed batch, with the
    hash of the two ciphertexts the tournament left. *)
Record wf (self : address) (s : State) : Prop := {
  wf_current : 1 ≤ currentBatchId s;
  wf_zero : batches s !! 0 = None;
  wf_fresh : ∀ id, currentBatchId s ≤ id → batches s !! id = None;
  wf_capacity : ∀ id,
    N.of_nat (length (bids (mget (batches s) id))) ≤ MAX_BIDS_PER_BATCH;
  wf_contexts : ∀ rid ctx,
    decryptionContexts s !! rid = Some ctx →
    ctx_batchId ctx < currentBatchId s ∧
    isOpen (mget (batches s) (ctx_batchId ctx)) = false ∧
    ∃ b0 b1 rest,
      bids (mget (batches s) (ctx_batchId ctx)) = b0 :: b1 :: rest ∧
      ctx_stateHash ctx =
        keccak256_encode (tournament_cts (tournament b0 b1 rest)) self
}.

(** A batch id that was issued. *)
Definition known (s : State) (id : N) : Prop :=
  1 ≤ id ∧ id < currentBatchId s.

(** A batch that was issued and closed. *)
Definition closed (s : State) (id : N) : Prop :=
  known s id ∧ isOpen (mget (batches s) id) = false.

(** The role a gated entry point asks of its caller. *)
Definition role_ok (env : Env) (c : call) (s : State) : bool :=
  match c with
  | SubmitBid _ _ _ => mget (providers s) (msg_sender env)
  | MyCallback _ _ _ => true
  | _ => msg_sender env =? owner s
  end.

(** The error of the role check of an entry point. *)
Definition role_error (c : call) : error :=
  match c with
  | SubmitBid _ _ _ => NotProvider
  | _ => NotOwner
  end.

(** The entry points that carry [whenNotPaused]. *)
Definition gated (c : call) : bool :=
  match c with
  | OpenBatch _ | CloseBatch _ | SubmitBid _ _ _ | RequestAuctionSettlement _ => true
  | _ => false
  end.

(** The cooldown of a sender has elapsed (and the sum did not overflow). *)
Definition cooled_down (last : gmap N N) (env : Env) (s : State) : Prop :=
  mget last (msg_sender env) + cooldownSeconds s ≤ UINT256_MAX ∧
  mget last (msg_sender env) + cooldownSeconds s ≤ block_timestamp env.

End WellFormed.

(** ** The tests of the entry points *)

Section Tests.

Context {L : FHE.Lib} {K : Keccak}.

(** The entry points that carry [onlyOwner]. *)
Definition owner_only (c : call) : bool :=
  match c with
  | SubmitBid _ _ _ | MyCallback _ _ _ => false
  | _ => true
  end.

(** Batch ids are issued from 1 on, one by one: every id below
    [currentBatchId] holds the batch that carries it. *)
Definition issued_ok (s : State) : Prop :=
  2 ≤ currentBatchId s ∧
  ∀ id, known s id → ∃ b, batches s !! id = Some b ∧ batchId b = id.

(** The tests of [submitBid], all passed. *)
Definition may_submit (env : Env) (id : N) (s : State) : Prop :=
  mget (providers s) (msg_sender env) = true ∧ paused s = false ∧
  cooled_down (lastSubmissionTime s) env s ∧
  id < currentBatchId s ∧ isOpen (mget (batches s) id) = true ∧
  N.of_nat (length (bids (mget (batches s) id))) < MAX_BIDS_PER_BATCH.

(** The tests of [closeBatch], all passed. *)
Definition may_close (env : Env) (id : N) (s : State) : Prop :=
  msg_sender env = owner s ∧ paused s = false ∧
  id < currentBatchId s ∧ isOpen (mget (batches s) id) = true.

(** The tests of [openBatch], all passed: the id counter can still be
    incremented. *)
Definition may_open (env : Env) (s : State) : Prop :=
  msg_sender env = owner s ∧ paused s = false ∧
  currentBatchId s < UINT256_MAX.

(** The tests of [requestAuctionSettlement], all passed. *)
Definition may_request (env : Env) (id : N) (s : State) : Prop :=
  msg_sender env = owner s ∧ paused s = false ∧
  id < currentBatchId s ∧ isOpen (mget (batches s) id) = false ∧
  (2 ≤ length (bids (mget (batches s) id)))%nat ∧
  cooled_down (lastDecryptionRequestTime s) env s.

(** The payload of a callback holds two words, at offsets 0 and 32,
    that fit 32 bits. *)
Definition payload_ok (cleartexts : list byte) : Prop :=
  (64 ≤ length cleartexts)%nat ∧
  word_of_bytes (take 32 cleartexts) ≤ UINT32_MAX ∧
  word_of_bytes (take 32 (drop 32 cleartexts)) ≤ UINT32_MAX.

End Tests.

Global Instance byte_eq_decision : EqDecision byte := Byte.byte_eq_dec.

(** * Properties *)

(** ** Mappings *)

Lemma mget_insert_eq {V} `{Zero V} (m : gmap N V) k v :
  mget (<[k:=v]> m) k = v.
Proof. unfold mget. by rewrite lookup_insert_eq. Qed.

Lemma mget_insert_ne {V} `{Zero V} (m : gmap N V) k k' v :
  k ≠ k' → mget (<[k:=v]> m) k' = mget m k'.
Proof. intros Hne. unfold mget. by rewrite lookup_insert_ne. Qed.

Lemma mget_empty {V} `{Zero V} k : mget (∅ : gmap N V) k = zero.
Proof. unfold mget. by rewrite lookup_empty. Qed.

Lemma mget_None {V} `{Zero V} (m : gmap N V) k : m !! k = None → mget m k = zero.
Proof. unfold mget. by intros ->. Qed.

Lemma mget_Some {V} `{Zero V} (m : gmap N V) k v : m !! k = Some v → mget m k = v.
Proof. unfold mget. by intros ->. Qed.

(** ** Running a call *)

(** Unfolds a contract function down to its tests and writes. *)
Ltac unfold_call_in H :=
  cbv [dispatch transferOwnership addProvider removeProvider setPaused
       setCooldownSeconds openBatch closeBatch submitBid
       requestAuctionSettlement myCallback constructor _openNewBatch
       onlyOwner onlyProvider whenNotPaused slice abi_decode_uint32
       bind get modify emit revert_if revert ret checked_add index] in H.

(** Reads fields through the field assignments. *)
Ltac storage_in H :=
  cbn [fst snd owner providers paused cooldownSeconds lastSubmissionTime
       lastDecryptionRequestTime batches decryptionContexts currentBatchId
       set_owner set_providers set_paused set_cooldownSeconds
       set_lastSubmissionTime set_lastDecryptionRequestTime set_batches
       set_decryptionContexts set_currentBatchId
       batchId isOpen closeTimestamp bids set_isOpen push_bid
       ctx_batchId ctx_stateHash ctx_processed set_processed empty_storage] in H.

Ltac storage :=
  cbn [fst snd owner providers paused cooldownSeconds lastSubmissionTime
       lastDecryptionRequestTime batches decryptionContexts currentBatchId
       set_owner set_providers set_paused set_cooldownSeconds
       set_lastSubmissionTime set_lastDecryptionRequestTime set_batches
       set_decryptionContexts set_currentBatchId
       batchId isOpen closeTimestamp bids set_isOpen push_bid
       ctx_batchId ctx_stateHash ctx_processed set_processed empty_storage].

(** Takes the next test of the unfolded call in [H], both ways. *)
Ltac next_test H :=
  match type of H with
  | context [if ?b then _ else _] => destruct b eqn:?
  | context [match ?l !! ?i with _ => _ end] => destruct (l !! i) eqn:?
  end; storage_in H.

Ltac run_call_in H := unfold_call_in H; storage_in H; repeat next_test H.

(** Turns the boolean tests met on the way into propositions. *)
Ltac tests_to_props :=
  repeat match goal with
  | H : (_ || _) = false |- _ => apply orb_false_iff in H as [? ?]
  | H : (_ || _) = true |- _ => apply orb_true_iff in H as [?|?]
  | H : negb _ = false |- _ => apply negb_false_iff in H
  | H : negb _ = true |- _ => apply negb_true_iff in H
  | H : (_ <=? _) = true |- _ => apply N.leb_le in H
  | H : (_ <=? _) = false |- _ => apply N.leb_gt in H
  | H : (_ <? _) = true |- _ => apply N.ltb_lt in H
  | H : (_ <? _) = false |- _ => apply N.ltb_ge in H
  | H : (_ =? _) = true |- _ => apply N.eqb_eq in H
  | H : (_ =? _) = false |- _ => apply N.eqb_neq in H
  end.

Section Atomicity.

Context {L : FHE.Lib} {K : Keccak}.

Lemma length_lt_2 (l : list Bid) :
  (N.of_nat (length l) <? 2) = false → ∃ b0 b1 rest, l = b0 :: b1 :: rest.
Proof.
  intros H. apply N.ltb_ge in H.
  destruct l as [|b0 [|b1 rest]]; simpl in H; try lia. eauto.
Qed.

(** A call that reverts has written nothing at the point where it
    reverts: every test of every function comes before its first write
    (or, after a write, cannot fail). *)
Lemma revert_writes_nothing env c s log e σ :
  dispatch env c (s, log) = Reverted e σ → σ = (s, log).
Proof.
  intros H. destruct c; run_call_in H; simplify_eq; try done.
  all: match goal with
       | Hl : (N.of_nat (length _) <? 2) = false |- _ =>
           apply length_lt_2 in Hl as (b0 & b1 & rest & Hb);
           rewrite Hb in *; simplify_eq
       end.
Qed.

End Atomicity.

(** ** Reachable storage is well formed *)

Section Reachability.

Context {L : FHE.Lib} {K : Keccak}.

Lemma wf_deploy self env s log :
  this env = self →
  constructor env (empty_storage, []) = Returned tt (s, log) →
  wf self s.
Proof.
  intros Hself H. run_call_in H; simplify_eq.
  split; storage.
  - lia.
  - by rewrite lookup_insert_ne, lookup_empty.
  - intros id Hid. rewrite lookup_insert_ne, lookup_empty by lia. done.
  - intros id. destruct (decide (id = 1)) as [->|Hne].
    + rewrite mget_insert_eq. storage. unfold MAX_BIDS_PER_BATCH. simpl. lia.
    + rewrite mget_insert_ne, mget_empty by done. unfold MAX_BIDS_PER_BATCH. simpl. lia.
  - intros rid ctx Hctx. storage_in Hctx. by rewrite lookup_empty in Hctx.
Qed.

Lemma zero_batch_closed (m : gmap N AuctionBatch) id :
  m !! id = None → isOpen (mget m id) = false ∧ bids (mget m id) = [].
Proof. intros H. by rewrite (mget_None _ _ H). Qed.

Lemma open_batch_known self s id :
  wf self s → isOpen (mget (batches s) id) = true → 1 ≤ id ∧ id < currentBatchId s.
Proof.
  intros Hwf Hopen.
  destruct (decide (id = 0)) as [->|?].
  { destruct (zero_batch_closed _ _ (wf_zero _ _ Hwf)). congruence. }
  destruct (decide (currentBatchId s ≤ id)) as [Hge|?]; [|lia].
  destruct (zero_batch_closed _ _ (wf_fresh _ _ Hwf id Hge)). congruence.
Qed.

Lemma wf_call self env c s s' log :
  this env = self → wf self s →
  dispatch env c (s, []) = Returned tt (s', log) → wf self s'.
Proof.
  intros Hself Hwf H. subst self.
  destruct c as [a|a|a|p|n|t|bid|bid x q|bid|r cts proof];
    run_call_in H; simplify_eq.
  1-7: try (destruct Hwf; split; storage; done).
  - (* openBatch *)
    destruct Hwf as [Hc Hz Hf Hcap Hctx]. split; storage.
    + lia.
    + rewrite lookup_insert_ne by lia. done.
    + intros id Hid. rewrite lookup_insert_ne by lia. apply Hf. lia.
    + intros id. destruct (decide (id = currentBatchId s)) as [->|Hne].
      * rewrite mget_insert_eq. storage. unfold MAX_BIDS_PER_BATCH. simpl. lia.
      * rewrite mget_insert_ne by done. apply Hcap.
    + intros rid ctx Hl. destruct (Hctx rid ctx Hl) as (Hlt & Hop & Hb).
      rewrite mget_insert_ne by lia. split; [lia|]. done.
  - (* closeBatch *)
    tests_to_props.
    destruct (open_batch_known (this env) s bid) as [Hpos _]; [done..|].
    destruct Hwf as [Hc Hz Hf Hcap Hctx]. split; storage.
    + done.
    + rewrite lookup_insert_ne by lia. done.
    + intros id Hid. rewrite lookup_insert_ne by lia. by apply Hf.
    + intros id. destruct (decide (id = bid)) as [->|Hne].
      * rewrite mget_insert_eq. storage. apply Hcap.
      * rewrite mget_insert_ne by done. apply Hcap.
    + intros rid ctx Hl. destruct (Hctx rid ctx Hl) as (Hlt' & Hop & Hb).
      assert (ctx_batchId ctx ≠ bid) by congruence.
      rewrite mget_insert_ne by done. done.
  - (* submitBid *)
    tests_to_props.
    destruct (open_batch_known (this env) s bid) as [Hpos _]; [done..|].
    destruct Hwf as [Hc Hz Hf Hcap Hctx]. split; storage.
    + done.
    + rewrite lookup_insert_ne by lia. done.
    + intros id Hid. rewrite lookup_insert_ne by lia. by apply Hf.
    + intros id. destruct (decide (id = bid)) as [->|Hne].
      * rewrite mget_insert_eq. storage. rewrite length_app. simpl.
        unfold MAX_BIDS_PER_BATCH in *. lia.
      * rewrite mget_insert_ne by done. apply Hcap.
    + intros rid ctx Hl. destruct (Hctx rid ctx Hl) as (Hlt' & Hop & Hb).
      assert (ctx_batchId ctx ≠ bid) by congruence.
      rewrite mget_insert_ne by done. done.
  - (* requestAuctionSettlement *)
    tests_to_props.
    destruct Hwf as [Hc Hz Hf Hcap Hctx]. split; storage; try done.
    intros rid ctx Hl.
    destruct (decide (oracle_requestId env = rid)) as [Heq|Hne].
    + rewrite Heq, lookup_insert_eq in Hl. simplify_eq. storage.
      split; [lia|]. split; [done|].
      destruct (bids (mget (batches s) bid)) as [|x0 [|x1 rest]] eqn:Hb;
        simplify_eq.
      simpl in *. simplify_eq. exists b, b0, rest. split; [done|].
      unfold _hashCiphertexts. by rewrite drop_0.
    + rewrite lookup_insert_ne in Hl by done. apply (Hctx rid ctx Hl).
  - (* myCallback *)
    destruct Hwf as [Hc Hz Hf Hcap Hctx]. split; storage; try done.
    intros rid ctx Hl.
    destruct (decide (r = rid)) as [->|Hne].
    + rewrite lookup_insert_eq in Hl. simplify_eq. storage.
      destruct (decryptionContexts s !! rid) as [c|] eqn:Hc0.
      * rewrite (mget_Some _ _ _ Hc0) in *. apply (Hctx rid c Hc0).
      * rewrite (mget_None _ _ Hc0) in *. unfold zero, zero_DecryptionContext in *.
        match goal with
        | Hi : bids _ !! 0%nat = Some _ |- _ =>
            storage_in Hi; rewrite (mget_None _ _ Hz) in Hi; done
        end.
    + rewrite lookup_insert_ne in Hl by done. apply (Hctx rid ctx Hl).
Qed.

Lemma wf_exec self env c s :
  this env = self → wf self s → wf self (exec env c s).
Proof.
  intros Hself Hwf. unfold exec, transact.
  destruct (dispatch env c (s, [])) as [[] [s' log]|e σ] eqn:H; simpl; [|done].
  by eapply wf_call.
Qed.

Lemma reachable_wf self s : reachable self s → wf self s.
Proof.
  induction 1 as [env s log Hself Hc|env c s Hself _ IH].
  - by eapply wf_deploy.
  - by apply wf_exec.
Qed.

End Reachability.

(** ** The two models are lawful *)

Global Instance ClearFHE_lawful : FHE.Lawful ClearFHE.
Proof. split; simpl; intros; by subst. Qed.

Global Instance FreshFHE_lawful : FHE.Lawful FreshFHE.
Proof.
  split; simpl; intros; [done| |by subst].
  rewrite N.add_comm, N.Div0.mod_add, N.Div0.mod_mod. by destruct c.
Qed.

Global Instance IdealKeccak_collision_free : CollisionFree IdealKeccak.
Proof. split. simpl. intros cts cts' a H. by simplify_eq. Qed.

(** ** The tournament *)

Section Tournament.

Context {L : FHE.Lib} {LL : FHE.Lawful L}.

(** One round leaves the larger of the running highest and the new bid
    as highest. *)
Lemma tournament_round_highest t b :
  FHE.decrypt (encryptedHighestBidAmount (tournament_round t b)) =
  N.max (FHE.decrypt (encryptedHighestBidAmount t))
        (FHE.decrypt (encryptedBidAmount b)).
Proof.
  unfold tournament_round; simpl.
  rewrite FHE.decrypt_select, FHE.cleartext_ge.
  destruct (_ <=? _) eqn:Hle; tests_to_props; lia.
Qed.

(** The bidder of the running highest changes only when the highest
    amount strictly grows. *)
Lemma tournament_round_bidder t b :
  FHE.decrypt (encryptedHighestBidAmount (tournament_round t b)) =
    FHE.decrypt (encryptedHighestBidAmount t) →
  highestBidder (tournament_round t b) = highestBidder t.
Proof.
  unfold tournament_round; simpl.
  rewrite FHE.decrypt_select, FHE.cleartext_ge.
  destruct (_ <=? _) eqn:Hle; [done|]. tests_to_props. lia.
Qed.

Lemma tournament_loop_highest rest t :
  FHE.decrypt (encryptedHighestBidAmount (fold_left tournament_round rest t)) =
  fold_left N.max (map (λ b, FHE.decrypt (encryptedBidAmount b)) rest)
            (FHE.decrypt (encryptedHighestBidAmount t)).
Proof.
  revert t. induction rest as [|b rest IH]; intros t; simpl; [done|].
  by rewrite IH, tournament_round_highest.
Qed.

Lemma fold_max_ge (l : list N) a : a ≤ fold_left N.max l a.
Proof.
  revert a. induction l as [|x l IH]; intros a; simpl; [lia|].
  specialize (IH (N.max a x)). lia.
Qed.

Lemma tournament_loop_bidder rest t :
  FHE.decrypt (encryptedHighestBidAmount (fold_left tournament_round rest t)) =
    FHE.decrypt (encryptedHighestBidAmount t) →
  highestBidder (fold_left tournament_round rest t) = highestBidder t.
Proof.
  revert t. induction rest as [|b rest IH]; intros t; simpl; [done|].
  intros Heq.
  pose proof (tournament_loop_highest rest (tournament_round t b)) as Hmax.
  pose proof (fold_max_ge
    (map (λ b, FHE.decrypt (encryptedBidAmount b)) rest)
    (FHE.decrypt (encryptedHighestBidAmount (tournament_round t b)))) as Hge.
  pose proof (tournament_round_highest t b) as Hr.
  assert (FHE.decrypt (encryptedHighestBidAmount (tournament_round t b)) =
          FHE.decrypt (encryptedHighestBidAmount t)) as Hsame by lia.
  rewrite IH by congruence. by apply tournament_round_bidder.
Qed.

(** The highest ciphertext of the tournament holds the maximum of slot
    0 and the slots from 2 on; slot 1 never competes for it. *)
Lemma tournament_highest b0 b1 rest :
  FHE.decrypt (encryptedHighestBidAmount (tournament b0 b1 rest)) =
  fold_left N.max (map (λ b, FHE.decrypt (encryptedBidAmount b)) rest)
            (FHE.decrypt (encryptedBidAmount b0)).
Proof. unfold tournament. by rewrite tournament_loop_highest. Qed.

(** If the tournament hands back the handle of slot 0 as highest, the
    bidder it tracked for it is the bidder of slot 0. *)
Lemma tournament_bidder_slot0 b0 b1 rest :
  FHE.toBytes32 (encryptedHighestBidAmount (tournament b0 b1 rest)) =
    FHE.toBytes32 (encryptedBidAmount b0) →
  highestBidder (tournament b0 b1 rest) = bidder b0.
Proof.
  intros Heq. apply FHE.decrypt_handle in Heq.
  unfold tournament in *. by rewrite tournament_loop_bidder.
Qed.

End Tournament.

(** ** The callback *)

Section Callback.

Context {L : FHE.Lib} {K : Keccak}.

(** What a callback that returns has tested and written. *)
Lemma myCallback_returned env r cts proof s log s' log' :
  myCallback env r cts proof (s, log) = Returned tt (s', log') →
  let ctx := mget (decryptionContexts s) r in
  ctx_processed ctx = false ∧
  FHE.checkSignatures r cts proof = true ∧
  s' = set_decryptionContexts
         (<[r := set_processed true ctx]> (decryptionContexts s)) s ∧
  ∃ b0 b1,
    bids (mget (batches s) (ctx_batchId ctx)) !! 0%nat = Some b0 ∧
    bids (mget (batches s) (ctx_batchId ctx)) !! 1%nat = Some b1 ∧
    keccak256_encode [FHE.toBytes32 (encryptedBidAmount b0);
                      FHE.toBytes32 (encryptedBidAmount b1)] (this env)
      = ctx_stateHash ctx ∧
    log' = log ++ [AuctionSettled (ctx_batchId ctx)
                     (word_of_bytes (take 32 cts)) (bidder b0)
                     (word_of_bytes (take 32 (drop 32 cts)))].
Proof.
  intros H. run_call_in H; simplify_eq. tests_to_props.
  repeat split; try done.
  match goal with Hd : bool_decide _ = true |- _ => apply bool_decide_eq_true in Hd end.
  eexists _, _. repeat split; try done.
Qed.

(** A callback on a request id without a context cannot return. *)
Lemma myCallback_needs_context self env r cts proof s log :
  wf self s → decryptionContexts s !! r = None →
  myCallback env r cts proof (s, log) = Reverted PanicIndex (s, log).
Proof.
  intros Hwf Hnone. unfold myCallback, bind, get, revert_if, index; simpl.
  rewrite (mget_None _ _ Hnone). simpl.
  rewrite (mget_None _ _ (wf_zero _ _ Hwf)). done.
Qed.

(** A decryption context, once written, is never removed: a request id
    without a context never had one. *)
Lemma contexts_persist env c s r :
  is_Some (decryptionContexts s !! r) →
  is_Some (decryptionContexts (exec env c s) !! r).
Proof.
  intros Hsome. unfold exec, transact.
  destruct (dispatch env c (s, [])) as [[] [s' log]|e σ] eqn:H; simpl;
    [|done].
  destruct c as [a|a|a|p|n|t|bid|bid x q|bid|r' cts proof];
    run_call_in H; simplify_eq; storage; try done.
  - destruct (decide (oracle_requestId env = r)) as [Heq|Hne].
    + rewrite Heq, lookup_insert_eq. eauto.
    + by rewrite lookup_insert_ne.
  - destruct (decide (r' = r)) as [->|Hne].
    + rewrite lookup_insert_eq. eauto.
    + by rewrite lookup_insert_ne.
Qed.

(** On a batch of exactly two bids the tournament runs no round, the
    request hashes slots 0 and 1, and the callback's hash test passes. *)
Lemma hash_test_two_bids self env r c cts proof s e :
  wf self s → this env = self →
  decryptionContexts s !! r = Some c →
  length (bids (mget (batches s) (ctx_batchId c))) = 2%nat →
  transact (myCallback env r cts proof) s = Failure e →
  e ≠ InvalidStateHash.
Proof.
  intros Hwf Hself Hctx Hlen Hrun ->.
  destruct (wf_contexts _ _ Hwf r c Hctx) as (_ & _ & b0 & b1 & rest & Hb & Hst).
  rewrite Hb in Hlen. destruct rest; [|done].
  unfold transact in Hrun.
  destruct (myCallback env r cts proof (s, [])) as [[] [s' log]|e σ] eqn:H;
    [done|].
  simplify_eq.
  run_call_in H; simplify_eq.
  all: rewrite (mget_Some _ _ _ Hctx), Hb in *; simpl in *; simplify_eq.
  all: match goal with
       | Hd : negb (bool_decide _) = true |- _ =>
           apply negb_true_iff, bool_decide_eq_false in Hd; apply Hd
       end.
  all: by rewrite Hst.
Qed.

(** An accepted callback reads the bidder of its event from slot 0.
    With a digest free of collisions, a callback is accepted only when
    the two handles the request hashed, those the tournament left, are
    the handles of slots 0 and 1. *)
Lemma accepted_callback_reads_slot_0 {CF : CollisionFree K}
    self env r cts proof s s' log :
  reachable self s → this env = self →
  transact (myCallback env r cts proof) s = Success s' log →
  let ctx := mget (decryptionContexts s) r in
  ∃ b0 b1 rest,
    bids (mget (batches s) (ctx_batchId ctx)) = b0 :: b1 :: rest ∧
    tournament_cts (tournament b0 b1 rest) =
      [FHE.toBytes32 (encryptedBidAmount b0);
       FHE.toBytes32 (encryptedBidAmount b1)] ∧
    log = [AuctionSettled (ctx_batchId ctx)
             (word_of_bytes (take 32 cts)) (bidder b0)
             (word_of_bytes (take 32 (drop 32 cts)))].
Proof.
  intros Hreach Hself Hrun ctx.
  apply reachable_wf in Hreach as Hwf.
  unfold transact in Hrun.
  destruct (myCallback env r cts proof (s, [])) as [[] [s1 log1]|e σ] eqn:Hcb;
    [|done].
  simplify_eq.
  destruct (decryptionContexts s !! r) as [c|] eqn:Hctx.
  2: { by rewrite (myCallback_needs_context _ _ _ _ _ _ _ Hwf Hctx) in Hcb. }
  apply myCallback_returned in Hcb
    as (Hproc & _ & -> & x0 & x1 & H0 & H1 & Hhash & ->).
  fold ctx in Hproc, H0, H1, Hhash |- *.
  assert (ctx = c) as Hc by (subst ctx; by apply mget_Some).
  destruct (wf_contexts _ _ Hwf r c Hctx) as (_ & _ & b0 & b1 & rest & Hb & Hst).
  rewrite Hc in *. rewrite Hb in H0, H1. simpl in H0, H1. simplify_eq.
  exists x0, x1, rest. split; [done|]. split; [|done].
  rewrite Hst in Hhash. by apply keccak256_encode_inj in Hhash.
Qed.

End Callback.

(** ** The access gate *)

Section Gate.

Context {L : FHE.Lib} {K : Keccak}.

(** The head of every gated entry point: role, then pause. *)
Lemma gated_role_first env c s log :
  gated c = true → role_ok env c s = false →
  dispatch env c (s, log) = Reverted (role_error c) (s, log).
Proof.
  intros Hg Hrole. destruct c; try discriminate Hg; simpl in Hrole |- *.
  all: unfold openBatch, closeBatch, submitBid, requestAuctionSettlement,
         onlyOwner, onlyProvider, bind, get, revert_if; simpl.
  all: by rewrite Hrole.
Qed.

Lemma gated_pause_second env c s log :
  gated c = true → role_ok env c s = true → paused s = true →
  dispatch env c (s, log) = Reverted Paused (s, log).
Proof.
  intros Hg Hrole Hp. destruct c; try discriminate Hg; simpl in Hrole |- *.
  all: unfold openBatch, closeBatch, submitBid, requestAuctionSettlement,
         onlyOwner, onlyProvider, whenNotPaused, bind, get, revert_if; simpl.
  all: rewrite Hrole; simpl; by rewrite Hp.
Qed.

(** C4 (amended): while [paused] is set, the four entry points that
    carry [whenNotPaused] (openBatch, closeBatch, submitBid,
    requestAuctionSettlement) revert, with [Paused] when the caller
    passes the role check and with the role error otherwise, and have
    written nothing when they do.  The owner's setters and [myCallback]
    carry no pause test. *)
Theorem C4_pause_blocks_gated_entry_points env c s :
  gated c = true → paused s = true →
  transact (dispatch env c) s =
    Failure (if role_ok env c s then Paused else role_error c)
  ∧ exec env c s = s
  ∧ ∀ log e σ, dispatch env c (s, log) = Reverted e σ → σ = (s, log).
Proof.
  intros Hg Hp. split; [|split].
  - unfold transact. destruct (role_ok env c s) eqn:Hrole.
    + by rewrite gated_pause_second.
    + by rewrite gated_role_first.
  - unfold exec, transact. destruct (role_ok env c s) eqn:Hrole.
    + by rewrite gated_pause_second.
    + by rewrite gated_role_first.
  - intros log e σ. apply revert_writes_nothing.
Qed.

(** C5 (amended): on the gated entry points the role check comes
    first and the pause test second: a caller without the role gets
    [NotOwner] or [NotProvider] whether or not the contract is paused,
    and a caller with the role gets [Paused] on a paused contract
    whatever the cooldown, the batch or the time. *)
Theorem C5_role_then_pause_then_cooldown env c s :
  gated c = true →
  (role_ok env c s = false → transact (dispatch env c) s = Failure (role_error c))
  ∧ (role_ok env c s = true → paused s = true →
     transact (dispatch env c) s = Failure Paused).
Proof.
  intros Hg. split.
  - intros Hrole. unfold transact. by rewrite gated_role_first.
  - intros Hrole Hp. unfold transact. by rewrite gated_pause_second.
Qed.

Lemma myCallback_replay env r cts proof s log :
  ctx_processed (mget (decryptionContexts s) r) = true →
  myCallback env r cts proof (s, log) = Reverted ReplayDetected (s, log).
Proof.
  intros Hp. unfold myCallback, bind, get, revert_if; simpl. by rewrite Hp.
Qed.

(** C6: a callback on a context already marked processed fails with
    [ReplayDetected]; after a callback that went through, every further
    callback on the same request id fails so and leaves the storage as
    it is; and a callback that fails, with whatever error, has written
    nothing to storage and logged no event at the point where it fails,
    so that the storage after the transaction is the one before. *)
Theorem C6_failed_callback_changes_nothing env r cts proof s :
  (ctx_processed (mget (decryptionContexts s) r) = true →
   transact (myCallback env r cts proof) s = Failure ReplayDetected)
  ∧ (∀ s' log, transact (myCallback env r cts proof) s = Success s' log →
     ∀ env' cts' proof',
       transact (myCallback env' r cts' proof') s' = Failure ReplayDetected
       ∧ exec env' (MyCallback r cts' proof') s' = s')
  ∧ (∀ log e σ, myCallback env r cts proof (s, log) = Reverted e σ → σ = (s, log))
  ∧ (∀ e, transact (myCallback env r cts proof) s = Failure e →
     exec env (MyCallback r cts proof) s = s).
Proof.
  split; [|split; [|split]].
  - intros Hp. unfold transact. by rewrite myCallback_replay.
  - intros s' log Hrun env' cts' proof'. unfold transact in Hrun.
    destruct (myCallback env r cts proof (s, [])) as [[] [s1 log1]|e σ] eqn:Hcb;
      [|done].
    simplify_eq. apply myCallback_returned in Hcb as (_ & _ & -> & _).
    assert (ctx_processed (mget (decryptionContexts
      (set_decryptionContexts
         (<[r:=set_processed true (mget (decryptionContexts s) r)]>
            (decryptionContexts s)) s)) r) = true) as Hdone.
    { storage. by rewrite mget_insert_eq. }
    unfold exec, transact, dispatch. by rewrite myCallback_replay.
  - intros log e σ. apply (revert_writes_nothing env (MyCallback r cts proof)).
  - intros e Hrun. unfold exec, dispatch. by rewrite Hrun.
Qed.

(** C10: a callback on a request id no context was written for reads
    the zero context ([processed = false], [batchId = 0]), indexes slot
    0 of batch 0, which has no bids, and fails with the index panic,
    not with one of the contract's errors. *)
Theorem C10_callback_without_context_panics self env r cts proof s :
  reachable self s → decryptionContexts s !! r = None →
  ctx_processed (mget (decryptionContexts s) r) = false
  ∧ ctx_batchId (mget (decryptionContexts s) r) = 0
  ∧ bids (mget (batches s) 0) = []
  ∧ transact (myCallback env r cts proof) s = Failure PanicIndex.
Proof.
  intros Hreach Hnone. apply reachable_wf in Hreach as Hwf.
  rewrite (mget_None _ _ Hnone), (mget_None _ _ (wf_zero _ _ Hwf)).
  repeat split; try done.
  unfold transact. by erewrite myCallback_needs_context.
Qed.

End Gate.

(** ** Settlement requests *)

Section Batches.

Context {L : FHE.Lib} {K : Keccak}.

(** The tests at the head of [requestAuctionSettlement], in order. *)
Lemma requestAuctionSettlement_invalid env id s log :
  msg_sender env = owner s → paused s = false →
  currentBatchId s ≤ id ∨ isOpen (mget (batches s) id) = true →
  requestAuctionSettlement env id (s, log) = Reverted InvalidBatch (s, log).
Proof.
  intros Ho Hp Hbad.
  unfold requestAuctionSettlement, onlyOwner, whenNotPaused, bind, get, revert_if;
    simpl.
  rewrite Ho, N.eqb_refl; simpl; rewrite Hp; simpl.
  destruct Hbad as [Hge|Hopen].
  - apply N.leb_le in Hge. by rewrite Hge.
  - by rewrite Hopen, orb_true_r.
Qed.

Lemma requestAuctionSettlement_few env id s log :
  msg_sender env = owner s → paused s = false →
  id < currentBatchId s → isOpen (mget (batches s) id) = false →
  (length (bids (mget (batches s) id)) < 2)%nat →
  requestAuctionSettlement env id (s, log) =
    Reverted (if decide (length (bids (mget (batches s) id)) = 0%nat)
              then NoBids else NotEnoughBids) (s, log).
Proof.
  intros Ho Hp Hlt Hclosed Hlen.
  unfold requestAuctionSettlement, onlyOwner, whenNotPaused, bind, get, revert_if;
    simpl.
  rewrite Ho, N.eqb_refl; simpl; rewrite Hp; simpl.
  apply N.leb_gt in Hlt. rewrite Hlt, Hclosed. simpl.
  destruct (bids (mget (batches s) id)) as [|b0 [|b1 rest]]; simpl in *;
    [done|done|lia].
Qed.

Lemma requestAuctionSettlement_returns env id s log b0 b1 rest :
  msg_sender env = owner s → paused s = false →
  id < currentBatchId s → isOpen (mget (batches s) id) = false →
  bids (mget (batches s) id) = b0 :: b1 :: rest →
  cooled_down (lastDecryptionRequestTime s) env s →
  ∃ s',
    requestAuctionSettlement env id (s, log) =
      Returned tt (s', log ++
        [RequestDecryptionCall (tournament_cts (tournament b0 b1 rest));
         DecryptionRequested (oracle_requestId env) id])
    ∧ mget (decryptionContexts s') (oracle_requestId env) =
        {| ctx_batchId := id;
           ctx_stateHash :=
             keccak256_encode (tournament_cts (tournament b0 b1 rest)) (this env);
           ctx_processed := false |}.
Proof.
  intros Ho Hp Hlt Hclosed Hb [Hfit Hcool].
  destruct (requestAuctionSettlement env id (s, log)) as [[] [s' log']|e σ] eqn:H;
    run_call_in H; tests_to_props; simplify_eq;
    rewrite ?Hb in *; simpl in *; simplify_eq; try lia; try congruence.
  eexists. split.
  - by rewrite <- app_assoc.
  - storage. by rewrite mget_insert_eq.

Qed.

(** C7 (amended): a settlement request by the owner of an unpaused
    contract fails with [InvalidBatch] on an id at or beyond
    [currentBatchId] and on an open batch; with [NoBids] on id 0 and on
    a closed batch without bids; with [NotEnoughBids] on a closed batch
    with one bid; and with two or more bids and the cooldown elapsed it
    returns, having handed exactly two ciphertext handles to the
    oracle. *)
Theorem C7_request_settlement_outcomes self env id s :
  reachable self s → msg_sender env = owner s → paused s = false →
  (currentBatchId s ≤ id ∨ isOpen (mget (batches s) id) = true →
   transact (requestAuctionSettlement env id) s = Failure InvalidBatch)
  ∧ (id = 0 → transact (requestAuctionSettlement env id) s = Failure NoBids)
  ∧ (id < currentBatchId s → isOpen (mget (batches s) id) = false →
     (length (bids (mget (batches s) id)) = 0%nat →
      transact (requestAuctionSettlement env id) s = Failure NoBids)
     ∧ (length (bids (mget (batches s) id)) = 1%nat →
      transact (requestAuctionSettlement env id) s = Failure NotEnoughBids)
     ∧ ((2 ≤ length (bids (mget (batches s) id)))%nat →
        cooled_down (lastDecryptionRequestTime s) env s →
        ∃ s' c0 c1,
          transact (requestAuctionSettlement env id) s =
            Success s' [RequestDecryptionCall [c0; c1];
                        DecryptionRequested (oracle_requestId env) id])).
Proof.
  intros Hreach Ho Hp. apply reachable_wf in Hreach as Hwf.
  assert (∀ i, i < currentBatchId s → isOpen (mget (batches s) i) = false →
    length (bids (mget (batches s) i)) = 0%nat →
    transact (requestAuctionSettlement env i) s = Failure NoBids) as Hnone.
  { intros i Hlt Hc Hlen. unfold transact.
    rewrite requestAuctionSettlement_few by (done || lia).
    by rewrite decide_True. }
  split; [|split].
  - intros Hbad. unfold transact. by rewrite requestAuctionSettlement_invalid.
  - intros ->. pose proof (wf_current _ _ Hwf).
    destruct (zero_batch_closed _ _ (wf_zero _ _ Hwf)) as [Hc Hb].
    apply Hnone; [lia|done|by rewrite Hb].
  - intros Hlt Hc. split; [by apply Hnone|]. split.
    + intros Hlen. unfold transact.
      rewrite requestAuctionSettlement_few by (done || lia).
      by rewrite decide_False by lia.
    + intros Hlen Hcool.
      destruct (bids (mget (batches s) id)) as [|b0 [|b1 rest]] eqn:Hb;
        simpl in Hlen; try lia.
      destruct (requestAuctionSettlement_returns env id s [] b0 b1 rest)
        as (s' & Hrun & _); try done.
      unfold transact. rewrite Hrun. by eexists _, _, _.
Qed.

End Batches.

(** ** The bid ledger and the batch registry *)

Section Ledger.

Context {L : FHE.Lib} {K : Keccak}.

Lemma submitBid_full env id x q s log :
  mget (providers s) (msg_sender env) = true → paused s = false →
  cooled_down (lastSubmissionTime s) env s →
  id < currentBatchId s → isOpen (mget (batches s) id) = true →
  MAX_BIDS_PER_BATCH ≤ N.of_nat (length (bids (mget (batches s) id))) →
  submitBid env id x q (s, log) = Reverted BatchFull (s, log).
Proof.
  intros Hprov Hp [Hfit Hcool] Hlt Hopen Hfull.
  destruct (submitBid env id x q (s, log)) as [[] [s' log']|e σ] eqn:H;
    run_call_in H; tests_to_props; simplify_eq; try lia; congruence.
Qed.

Lemma submitBid_closed env id x q s log :
  mget (providers s) (msg_sender env) = true → paused s = false →
  cooled_down (lastSubmissionTime s) env s →
  currentBatchId s ≤ id ∨ isOpen (mget (batches s) id) = false →
  submitBid env id x q (s, log) = Reverted BatchClosed (s, log).
Proof.
  intros Hprov Hp [Hfit Hcool] Hbad.
  destruct (submitBid env id x q (s, log)) as [[] [s' log']|e σ] eqn:H;
    run_call_in H; tests_to_props; simplify_eq; try lia; try congruence.
  all: destruct Hbad; try lia; congruence.
Qed.

(** Whatever the caller and the time, a submit to a batch that is full,
    closed or not issued reverts. *)
Lemma submitBid_rejected env id x q s log :
  MAX_BIDS_PER_BATCH ≤ N.of_nat (length (bids (mget (batches s) id)))
  ∨ currentBatchId s ≤ id ∨ isOpen (mget (batches s) id) = false →
  ∃ e, submitBid env id x q (s, log) = Reverted e (s, log).
Proof.
  intros Hbad.
  destruct (submitBid env id x q (s, log)) as [[] [s' log']|e σ] eqn:H.
  - run_call_in H; tests_to_props; simplify_eq.
    destruct Hbad as [?|[?|?]]; try lia; congruence.
  - apply (revert_writes_nothing env (SubmitBid id x q)) in H as ->. eauto.
Qed.

Lemma closeBatch_invalid env id s log :
  msg_sender env = owner s → paused s = false →
  currentBatchId s ≤ id ∨ isOpen (mget (batches s) id) = false →
  closeBatch env id (s, log) = Reverted InvalidBatch (s, log).
Proof.
  intros Ho Hp Hbad.
  destruct (closeBatch env id (s, log)) as [[] [s' log']|e σ] eqn:H;
    run_call_in H; tests_to_props; simplify_eq; try lia; try congruence.
  all: destruct Hbad; try lia; congruence.
Qed.

Lemma closeBatch_returned self env id s s' log :
  wf self s → transact (closeBatch env id) s = Success s' log → closed s' id.
Proof.
  intros Hwf Hrun. unfold transact in Hrun.
  destruct (closeBatch env id (s, [])) as [[] [s1 log1]|e σ] eqn:H; [|done].
  simplify_eq. run_call_in H; tests_to_props; simplify_eq.
  match goal with Ho : isOpen _ = true |- _ =>
    destruct (open_batch_known _ _ _ Hwf Ho) as [Hpos Hlt] end.
  repeat split; storage; try done.
  by rewrite mget_insert_eq.
Qed.

(** No call reopens a closed batch. *)
Lemma closed_exec env c s id : closed s id → closed (exec env c s) id.
Proof.
  intros [[Hpos Hlt] Hc]. unfold exec, transact.
  destruct (dispatch env c (s, [])) as [[] [s' log]|e σ] eqn:H; simpl;
    [|done].
  destruct c as [a|a|a|p|n|t|bid|bid x q|bid|r cts proof];
    run_call_in H; tests_to_props; simplify_eq; unfold closed, known; storage;
    try done.
  - rewrite mget_insert_ne by lia. repeat split; [done|lia|done].
  - repeat split; try done.
    destruct (decide (bid = id)) as [->|Hne].
    + by rewrite mget_insert_eq.
    + by rewrite mget_insert_ne.
  - repeat split; try done.
    destruct (decide (bid = id)) as [->|Hne].
    + by rewrite mget_insert_eq.
    + by rewrite mget_insert_ne.
Qed.

Lemma closed_replay txs s id : closed s id → closed (replay txs s) id.
Proof.
  revert s. induction txs as [|[env c] txs IH]; intros s Hc; simpl; [done|].
  apply IH. by apply closed_exec.
Qed.

(** An id that was not issued reads as a closed batch. *)
Lemma unknown_batch_closed self s id :
  wf self s → ¬ known s id →
  currentBatchId s ≤ id ∨ isOpen (mget (batches s) id) = false.
Proof.
  intros Hwf Hunk. unfold known in Hunk.
  destruct (decide (currentBatchId s ≤ id)); [by left|right].
  assert (id = 0) as -> by lia.
  by destruct (zero_batch_closed _ _ (wf_zero _ _ Hwf)).
Qed.

(** C8: in every reachable storage no batch holds more than
    [MAX_BIDS_PER_BATCH] bids; and a submit to a batch that holds that
    many never returns and appends nothing, failing with [BatchFull]
    when the caller is a provider, the contract is not paused, the
    cooldown has elapsed and the batch is open. *)
Theorem C8_bid_count_bounded self s :
  reachable self s →
  (∀ id, N.of_nat (length (bids (mget (batches s) id))) ≤ MAX_BIDS_PER_BATCH)
  ∧ ∀ env id x q,
      MAX_BIDS_PER_BATCH ≤ N.of_nat (length (bids (mget (batches s) id))) →
      (∃ e, transact (submitBid env id x q) s = Failure e)
      ∧ bids (mget (batches (exec env (SubmitBid id x q) s)) id) =
          bids (mget (batches s) id)
      ∧ (∀ log e σ, submitBid env id x q (s, log) = Reverted e σ → σ = (s, log))
      ∧ (mget (providers s) (msg_sender env) = true → paused s = false →
         cooled_down (lastSubmissionTime s) env s →
         isOpen (mget (batches s) id) = true →
         transact (submitBid env id x q) s = Failure BatchFull).
Proof.
  intros Hreach. apply reachable_wf in Hreach as Hwf.
  split; [apply (wf_capacity _ _ Hwf)|].
  intros env id x q Hfull.
  destruct (submitBid_rejected env id x q s []) as [e He]; [by left|].
  split; [|split; [|split]].
  - exists e. unfold transact. by rewrite He.
  - unfold exec, transact, dispatch. by rewrite He.
  - intros log e' σ. apply (revert_writes_nothing env (SubmitBid id x q)).
  - intros Hprov Hp Hcool Hopen.
    destruct (open_batch_known _ _ _ Hwf Hopen) as [_ Hlt].
    unfold transact. by rewrite submitBid_full.
Qed.

(** C9: [closeBatch] by the owner of an unpaused contract fails with
    [InvalidBatch] on an id that was not issued and on a closed batch;
    a batch that [closeBatch] closed is closed after every further
    sequence of transactions; and a submit to a closed batch or to an
    id that was not issued never returns, failing with [BatchClosed]
    when the caller is a provider, the contract is not paused and the
    cooldown has elapsed. *)
Theorem C9_closed_batches_stay_closed self s :
  reachable self s →
  (∀ env id,
     msg_sender env = owner s → paused s = false →
     ¬ known s id ∨ isOpen (mget (batches s) id) = false →
     transact (closeBatch env id) s = Failure InvalidBatch)
  ∧ (∀ env id s' log,
       transact (closeBatch env id) s = Success s' log →
       ∀ txs, closed (replay txs s') id)
  ∧ (∀ env id x q,
       closed s id ∨ ¬ known s id →
       (∃ e, transact (submitBid env id x q) s = Failure e)
       ∧ (mget (providers s) (msg_sender env) = true → paused s = false →
          cooled_down (lastSubmissionTime s) env s →
          transact (submitBid env id x q) s = Failure BatchClosed)).
Proof.
  intros Hreach. apply reachable_wf in Hreach as Hwf.
  split; [|split].
  - intros env id Ho Hp Hbad. unfold transact.
    rewrite closeBatch_invalid; try done.
    destruct Hbad as [Hunk|Hc]; [|by right].
    by eapply unknown_batch_closed.
  - intros env id s' log Hrun txs. apply closed_replay.
    by eapply closeBatch_returned.
  - intros env id x q Hbad.
    assert (currentBatchId s ≤ id ∨ isOpen (mget (batches s) id) = false) as Hc.
    { destruct Hbad as [[_ Hc]|Hunk]; [by right|].
      by eapply unknown_batch_closed. }
    split.
    + destruct (submitBid_rejected env id x q s []) as [e He]; [by right|].
      exists e. unfold transact. by rewrite He.
    + intros Hprov Hp Hcool. unfold transact. by rewrite submitBid_closed.
Qed.

End Ledger.

(** ** Handles allocated per operation *)

Section FreshHandles.

Local Existing Instance FreshFHE.
Local Existing Instance IdealKeccak.

(** Every round of the tournament makes a new highest ciphertext. *)
Lemma fresh_round_grows (t : @Tournament FreshFHE) (b : @Bid FreshFHE) :
  @FHE.toBytes32 FreshFHE (encryptedHighestBidAmount t) <
  @FHE.toBytes32 FreshFHE (encryptedHighestBidAmount (tournament_round t b)).
Proof.
  unfold tournament_round; simpl.
  assert (∀ h x m k : N, 1 ≤ k → h < (1 + h + x) * k + m) as Hlt
    by (intros; nia).
  apply Hlt. by vm_compute.
Qed.

Lemma fresh_loop_grows (rest : list (@Bid FreshFHE)) (t : @Tournament FreshFHE) :
  @FHE.toBytes32 FreshFHE (encryptedHighestBidAmount t) ≤
  @FHE.toBytes32 FreshFHE (encryptedHighestBidAmount (fold_left tournament_round rest t)).
Proof.
  revert t. induction rest as [|b rest IH]; intros t; simpl; [lia|].
  pose proof (fresh_round_grows t b). specialize (IH (tournament_round t b)).
  simpl in *. lia.
Qed.

(** With a handle per operation, the callback for a batch of three or
    more bids never goes through: the handle the request hashed as
    highest is not the handle of slot 0. *)
Lemma fresh_three_bids_never_settle self env r c cts proof
    (s : @State FreshFHE IdealKeccak) s' log :
  wf self s → this env = self →
  decryptionContexts s !! r = Some c →
  (3 ≤ length (bids (mget (batches s) (ctx_batchId c))))%nat →
  transact (myCallback env r cts proof) s ≠ Success s' log.
Proof.
  intros Hwf Hself Hctx Hlen Hrun.
  destruct (wf_contexts _ _ Hwf r c Hctx) as (_ & _ & b0 & b1 & rest & Hb & Hst).
  rewrite Hb in Hlen. destruct rest as [|b rest]; [simpl in Hlen; lia|].
  unfold transact in Hrun.
  destruct (myCallback env r cts proof (s, [])) as [[] [s1 log1]|e σ] eqn:H;
    [|done].
  apply myCallback_returned in H as (_ & _ & _ & x0 & x1 & H0 & H1 & Hhash & _).
  rewrite (mget_Some _ _ _ Hctx), Hb in *. simpl in H0, H1. simplify_eq.
  rewrite Hst in Hhash. simpl in Hhash. unfold tournament_cts in Hhash.
  injection Hhash as Hhi _.
  pose proof (fresh_round_grows
    {| encryptedHighestBidAmount := encryptedBidAmount x0;
       encryptedSecondHighestBidAmount := encryptedBidAmount x1;
       highestBidder := bidder x0; secondHighestBidder := bidder x1 |} b) as Hgrow.
  pose proof (fresh_loop_grows rest (tournament_round
    {| encryptedHighestBidAmount := encryptedBidAmount x0;
       encryptedSecondHighestBidAmount := encryptedBidAmount x1;
       highestBidder := bidder x0; secondHighestBidder := bidder x1 |} b)) as Hle.
  pose proof (N.lt_le_trans _ _ _ Hgrow Hle) as Hlt.
  unfold tournament in Hhi. simpl in Hhi. rewrite <- Hhi in Hlt.
  by apply N.lt_irrefl in Hlt.
Qed.

End FreshHandles.

(** ** The scenario *)

Section ScenarioReachable.

Context {L : FHE.Lib} {K : Keccak}.

Import Scenario.

Lemma reachable_replay self txs s :
  Forall (λ tx, this (fst tx) = self) txs →
  reachable self s → reachable self (replay txs s).
Proof.
  revert s. induction txs as [|[env c] txs IH]; intros s Hall Hr; simpl; [done|].
  inversion Hall; subst. apply IH; [done|]. by apply reach_call.
Qed.

Lemma reachable_deployed : reachable 99 deployed.
Proof.
  eapply (reach_deploy 99 (at_time 1 1000)); [reflexivity|].
  vm_compute. reflexivity.
Qed.

Lemma reachable_with_bidders : reachable 99 with_bidders.
Proof.
  apply reachable_replay; [repeat constructor|]. apply reachable_deployed.
Qed.

Lemma reachable_closed_with a b c q : reachable 99 (closed_with a b c q).
Proof.
  apply reachable_replay; [repeat constructor|]. apply reachable_with_bidders.
Qed.

Lemma reachable_closed_with2 a b q : reachable 99 (closed_with2 a b q).
Proof.
  apply reachable_replay; [repeat constructor|]. apply reachable_with_bidders.
Qed.

Lemma reachable_full q : reachable 99 (full q).
Proof.
  apply reachable_replay; [|apply reachable_with_bidders].
  apply Forall_forall. intros tx Hin. unfold filling in Hin.
  apply list_elem_of_In, in_map_iff in Hin as (i & <- & _). reflexivity.
Qed.

End ScenarioReachable.

(** ** The claims on the scenario *)

Section Scenarios.

Import Scenario.

(** C1: on the bids 10, 30, 20 (in this order) the tournament leaves 20
    as highest and 10 as second, and these are the two ciphertexts the
    settlement request hands to the oracle; the maximum 30 sits in slot
    1 and is never compared.  The true maximum and second maximum are
    30 and 20.  On the same bids submitted as 30, 20, 10 the tournament
    leaves 30 and 20: its result depends on the submission order. *)
Theorem C1_tournament_misses_top_two :
  let t := @tournament ClearFHE
             (clear_bid 10 11) (clear_bid 30 12) [clear_bid 20 13] in
  (@FHE.decrypt ClearFHE (encryptedHighestBidAmount t),
   @FHE.decrypt ClearFHE (encryptedSecondHighestBidAmount t)) = (20, 10)
  ∧ spec_top_two [10; 30; 20] = Some (30, 20)
  ∧ spec_top_two [30; 20; 10] = Some (30, 20)
  ∧ (∃ s', run request
                    (@closed_with ClearFHE IdealKeccak 10 30 20 0)
           = Success s' [RequestDecryptionCall [20; 10]; DecryptionRequested 7 1])
  ∧ (∃ s', run request
                    (@closed_with ClearFHE IdealKeccak 30 20 10 0)
           = Success s' [RequestDecryptionCall [30; 20]; DecryptionRequested 7 1]).
Proof.
  split; [reflexivity|]. split; [by vm_compute|]. split; [by vm_compute|].
  split; eexists; vm_compute; reflexivity.
Qed.

(** C2: a batch of three bids is closed, the settlement request goes
    through, nothing touches the bids, and the oracle's callback with
    the right cleartexts and a valid proof fails with
    [InvalidStateHash]: the request hashed the two ciphertexts the
    tournament made, the callback hashes slots 0 and 1.  With handles
    allocated per operation this happens whatever the amounts (here 30,
    20, 10, slot 0 already the maximum); in the clear model it happens
    as soon as the tournament moves a handle (10, 30, 20). *)
Theorem C2_unmutated_batch_fails_hash_check :
  (let s := @closed_with FreshFHE IdealKeccak 30 20 10 0 in
   let s1 := replay [request] s in
   (∃ log, run request s = Success s1 log)
   ∧ bids (mget (batches s1) 1) = bids (mget (batches s) 1)
   ∧ run (callback 30 20) s1
     = Failure InvalidStateHash)
  ∧ (let s := @closed_with ClearFHE IdealKeccak 10 30 20 0 in
     let s1 := replay [request] s in
     (∃ log, run request s = Success s1 log)
     ∧ bids (mget (batches s1) 1) = bids (mget (batches s) 1)
     ∧ run (callback 20 10) s1
       = Failure InvalidStateHash).
Proof.
  split; (split; [eexists; vm_compute; reflexivity|]);
    split; vm_compute; reflexivity.
Qed.

(** C3: on the scenario of the spec (bids 10, 30, 20 from bidders 11,
    12, 13, batch closed) the settlement request goes through; its
    tournament tracks bidder 13 for the highest amount, slot 0 holds
    the bid of bidder 11, and the bid of 30 is bidder 12's.  The first
    callback, with a valid proof and the cleartexts 30 and 20 of the
    scenario, emits no event: it fails with [InvalidStateHash], and so
    does the one with the cleartexts 20 and 10 of the two ciphertexts
    the request sent.  The callback reads the bidder of its event from
    slot 0 of the batch; the bidder the tournament tracked is dropped
    when the request returns. *)
Theorem C3_settlement_event_misses_tracked_bidder :
  let s := @closed_with ClearFHE IdealKeccak 10 30 20 0 in
  let s1 := replay [request] s in
  (∃ log, run request s = Success s1 log)
  ∧ bids (mget (batches s1) 1) =
      [clear_bid 10 11; clear_bid 30 12; clear_bid 20 13]
  ∧ highestBidder
      (tournament (clear_bid 10 11) (clear_bid 30 12) [clear_bid 20 13]) = 13
  ∧ ctx_processed (mget (decryptionContexts s1) 7) = false
  ∧ run (callback 30 20) s1 = Failure InvalidStateHash
  ∧ run (callback 20 10) s1 = Failure InvalidStateHash.
Proof.
  split; [eexists; vm_compute; reflexivity|].
  split_and!; vm_compute; reflexivity.
Qed.

(** C4, refuted as stated: on a paused contract the oracle's callback
    goes through, settles the batch and marks the context processed,
    and the owner's [setPaused(false)] goes through as well. *)
Lemma C4_counterexample :
  let s := replay [request; pause] (@closed_with2 ClearFHE IdealKeccak 20 10 0) in
  paused s = true
  ∧ (∃ s', run (callback 20 10) s
           = Success s' [AuctionSettled 1 20 11 10]
         ∧ ctx_processed (mget (decryptionContexts s) 7) = false
         ∧ ctx_processed (mget (decryptionContexts s') 7) = true)
  ∧ (∃ s', transact (dispatch (at_time 1 3600) (SetPaused false)) s
           = Success s' [ContractUnpaused 1]
         ∧ paused s' = false).
Proof.
  split; [vm_compute; reflexivity|].
  split; eexists; (split; [vm_compute; reflexivity|]); try split;
    vm_compute; reflexivity.
Qed.

Lemma C4_witness :
  let s := replay [pause] (@with_bidders ClearFHE IdealKeccak) in
  let env := at_time 1 3600 in
  let c := OpenBatch 9000 in
  transact (dispatch env c) s =
    Failure (if role_ok env c s then Paused else role_error c)
  ∧ exec env c s = s
  ∧ ∀ log e σ, dispatch env c (s, log) = Reverted e σ → σ = (s, log).
Proof.
  intros s env c.
  apply (C4_pause_blocks_gated_entry_points env c s).
  - reflexivity.
  - vm_compute. reflexivity.
Defined.

(** C5, refuted as stated: on a paused contract a submit by an address
    that is no provider fails with [NotProvider], and a close by an
    address that is not the owner with [NotOwner]; neither fails with
    [Paused]. *)
Lemma C5_counterexample :
  let s := replay [pause] (@with_bidders ClearFHE IdealKeccak) in
  paused s = true
  ∧ mget (providers s) 50 = false
  ∧ transact (dispatch (at_time 50 3600) (@SubmitBid ClearFHE 1 5 0)) s = Failure NotProvider
  ∧ transact (dispatch (at_time 50 3600) (CloseBatch 1)) s = Failure NotOwner.
Proof. repeat split; vm_compute; reflexivity. Qed.

Lemma C5_witness :
  let s := replay [pause] (@with_bidders ClearFHE IdealKeccak) in
  let env := at_time 11 3600 in
  let c := @SubmitBid ClearFHE 1 5 0 in
  (role_ok env c s = false → transact (dispatch env c) s = Failure (role_error c))
  ∧ (role_ok env c s = true → paused s = true →
     transact (dispatch env c) s = Failure Paused).
Proof.
  intros s env c.
  apply (C5_role_then_pause_then_cooldown env c s).
  reflexivity.
Defined.

Lemma C6_witness :
  let s := replay [request] (@closed_with ClearFHE IdealKeccak 30 20 10 0) in
  let s' := replay [callback 30 20] s in
  (transact (myCallback (at_time 5 4100) 7 (abi_word 30 ++ abi_word 20) valid_proof) s'
     = Failure ReplayDetected
   ∧ exec (at_time 5 4100) (MyCallback 7 (abi_word 30 ++ abi_word 20) valid_proof) s' = s')
  ∧ (∀ log e σ,
       myCallback (at_time 5 4000) 7 (abi_word 30 ++ abi_word 20) [] (s, log)
         = Reverted e σ → σ = (s, log)).
Proof.
  intros s s'.
  destruct (C6_failed_callback_changes_nothing (at_time 5 4000) 7
              (abi_word 30 ++ abi_word 20) valid_proof s) as (_ & Hsecond & _).
  destruct (C6_failed_callback_changes_nothing (at_time 5 4000) 7
              (abi_word 30 ++ abi_word 20) [] s) as (_ & _ & Hnothing & _).
  split; [|exact Hnothing].
  apply (Hsecond s' [AuctionSettled 1 30 11 20]).
  vm_compute. reflexivity.
Defined.

(** C7, refuted as stated: id 0 was never issued, and a settlement
    request on it by the owner of the unpaused contract fails with
    [NoBids], not with [InvalidBatch]. *)
Lemma C7_counterexample :
  let s := @deployed ClearFHE IdealKeccak in
  ¬ known s 0
  ∧ owner s = 1 ∧ paused s = false
  ∧ transact (requestAuctionSettlement (at_time 1 1500) 0) s = Failure NoBids.
Proof.
  split; [|repeat split; vm_compute; reflexivity].
  intros [Hpos _]. vm_compute in Hpos. by apply Hpos.
Qed.

Lemma C7_witness :
  let s := @closed_with ClearFHE IdealKeccak 10 30 20 0 in
  let env := at_time 1 3000 in
  let id := 1 in
  (currentBatchId s ≤ id ∨ isOpen (mget (batches s) id) = true →
   transact (requestAuctionSettlement env id) s = Failure InvalidBatch)
  ∧ (id = 0 → transact (requestAuctionSettlement env id) s = Failure NoBids)
  ∧ (id < currentBatchId s → isOpen (mget (batches s) id) = false →
     (length (bids (mget (batches s) id)) = 0%nat →
      transact (requestAuctionSettlement env id) s = Failure NoBids)
     ∧ (length (bids (mget (batches s) id)) = 1%nat →
      transact (requestAuctionSettlement env id) s = Failure NotEnoughBids)
     ∧ ((2 ≤ length (bids (mget (batches s) id)))%nat →
        cooled_down (lastDecryptionRequestTime s) env s →
        ∃ s' c0 c1,
          transact (requestAuctionSettlement env id) s =
            Success s' [RequestDecryptionCall [c0; c1];
                        DecryptionRequested (oracle_requestId env) id])).
Proof.
  intros s env id.
  apply (C7_request_settlement_outcomes 99 env id s).
  - apply reachable_closed_with.
  - reflexivity.
  - vm_compute. reflexivity.
Defined.

Lemma C8_witness :
  let s := @full ClearFHE IdealKeccak 5 in
  N.of_nat (length (bids (mget (batches s) 1))) = MAX_BIDS_PER_BATCH
  ∧ transact (@submitBid ClearFHE IdealKeccak (at_time 12 9000) 1 7 0) s = Failure BatchFull
  ∧ ∀ id, N.of_nat (length (bids (mget (batches s) id))) ≤ MAX_BIDS_PER_BATCH.
Proof.
  intros s.
  destruct (C8_bid_count_bounded 99 s (@reachable_full ClearFHE IdealKeccak 5)) as [Hcap Hfull].
  split; [vm_compute; reflexivity|]. split; [|exact Hcap].
  destruct (Hfull (at_time 12 9000) 1 (7 : @FHE.euint32 ClearFHE) (0 : @FHE.euint32 ClearFHE)) as (_ & _ & _ & Hb).
  - vm_compute. discriminate.
  - apply Hb.
    + vm_compute. reflexivity.
    + vm_compute. reflexivity.
    + split; vm_compute; discriminate.
    + vm_compute. reflexivity.
Defined.

Lemma C9_witness :
  let s := @with_bidders ClearFHE IdealKeccak in
  let s' := exec (at_time 1 2500) (CloseBatch 1) s in
  transact (closeBatch (at_time 1 2600) 1) s' = Failure InvalidBatch
  ∧ transact (closeBatch (at_time 1 2600) 2) s' = Failure InvalidBatch
  ∧ closed (replay [(at_time 1 2700, OpenBatch 9000);
                    (at_time 11 2800, @SubmitBid ClearFHE 2 5 0)] s') 1
  ∧ transact (@submitBid ClearFHE IdealKeccak (at_time 11 2900) 1 5 0) s' = Failure BatchClosed
  ∧ transact (@submitBid ClearFHE IdealKeccak (at_time 11 2900) 0 5 0) s' = Failure BatchClosed.
Proof.
  intros s s'.
  destruct (C9_closed_batches_stay_closed 99 s reachable_with_bidders)
    as (_ & Hstay & _).
  destruct (C9_closed_batches_stay_closed 99 s'
              (reach_call 99 (at_time 1 2500) (CloseBatch 1) s eq_refl reachable_with_bidders))
    as (Hclose & _ & Hsubmit).
  split; [|split; [|split; [|split]]].
  - apply Hclose; [reflexivity|vm_compute; reflexivity|].
    right. vm_compute. reflexivity.
  - apply Hclose; [reflexivity|vm_compute; reflexivity|].
    left. intros [_ Hlt]. vm_compute in Hlt. discriminate.
  - apply (Hstay (at_time 1 2500) 1 s' [BatchClosedEvent 1]).
    vm_compute. reflexivity.
  - apply Hsubmit.
    + left. apply (Hstay (at_time 1 2500) 1 s' [BatchClosedEvent 1] eq_refl []).
    + vm_compute. reflexivity.
    + vm_compute. reflexivity.
    + split; vm_compute; discriminate.
  - apply Hsubmit.
    + right. intros [Hpos _]. vm_compute in Hpos. by apply Hpos.
    + vm_compute. reflexivity.
    + vm_compute. reflexivity.
    + split; vm_compute; discriminate.
Defined.

Lemma C10_witness :
  let s := @closed_with ClearFHE IdealKeccak 10 30 20 0 in
  ctx_processed (mget (decryptionContexts s) 7) = false
  ∧ ctx_batchId (mget (decryptionContexts s) 7) = 0
  ∧ bids (mget (batches s) 0) = []
  ∧ transact (myCallback (at_time 5 4000) 7 (abi_word 30 ++ abi_word 20) valid_proof) s
    = Failure PanicIndex.
Proof.
  intros s.
  apply (C10_callback_without_context_panics 99 (at_time 5 4000) 7
           (abi_word 30 ++ abi_word 20) valid_proof s).
  - apply reachable_closed_with.
  - vm_compute. reflexivity.
Defined.

End Scenarios.

(** * Further properties of the contract *)

(** Boolean tests on [nat] and decided propositions, as propositions. *)
Ltac nat_tests :=
  repeat match goal with
  | Hn : (_ <=? _)%nat = false |- _ => apply Nat.leb_gt in Hn
  | Hn : (_ <=? _)%nat = true |- _ => apply Nat.leb_le in Hn
  | Hd : bool_decide _ = false |- _ => apply bool_decide_eq_false in Hd
  | Hd : bool_decide _ = true |- _ => apply bool_decide_eq_true in Hd
  end.

(** ** Administration *)

Section Administration.

Context {L : FHE.Lib} {K : Keccak}.

Lemma exec_returned env c s s' log :
  dispatch env c (s, []) = Returned tt (s', log) → exec env c s = s'.
Proof. intros H. unfold exec, transact. by rewrite H. Qed.

Lemma exec_reverted env c s e σ :
  dispatch env c (s, []) = Reverted e σ → exec env c s = s.
Proof. intros H. unfold exec, transact. by rewrite H. Qed.

Lemma storage_eta (s : State) :
  {| owner := owner s; providers := providers s; paused := paused s;
     cooldownSeconds := cooldownSeconds s;
     lastSubmissionTime := lastSubmissionTime s;
     lastDecryptionRequestTime := lastDecryptionRequestTime s;
     batches := batches s; decryptionContexts := decryptionContexts s;
     currentBatchId := currentBatchId s |} = s.
Proof. by destruct s. Qed.

(** X1: whatever the entry point, a call that reverts has written
    nothing to storage and logged nothing at the point where it
    reverts: every function tests before it writes.  The storage after
    the transaction is the storage before. *)
Theorem X1_reverting_call_has_written_nothing env c s log e σ :
  dispatch env c (s, log) = Reverted e σ →
  σ = (s, log) ∧ (log = [] → exec env c s = s).
Proof.
  intros H. pose proof (revert_writes_nothing _ _ _ _ _ _ H) as ->.
  split; [done|]. intros ->. by eapply exec_reverted.
Qed.

(** X2: a call from an address that is not the owner changes neither
    the owner, nor the provider set, nor the pause flag, nor the
    cooldown, nor the id counter, nor the request clocks, and neither
    opens nor closes a batch nor moves a deadline. *)
Theorem X2_only_the_owner_administers env c s :
  msg_sender env ≠ owner s →
  owner (exec env c s) = owner s
  ∧ providers (exec env c s) = providers s
  ∧ paused (exec env c s) = paused s
  ∧ cooldownSeconds (exec env c s) = cooldownSeconds s
  ∧ currentBatchId (exec env c s) = currentBatchId s
  ∧ lastDecryptionRequestTime (exec env c s) = lastDecryptionRequestTime s
  ∧ ∀ id, isOpen (mget (batches (exec env c s)) id) = isOpen (mget (batches s) id)
        ∧ closeTimestamp (mget (batches (exec env c s)) id)
          = closeTimestamp (mget (batches s) id).
Proof.
  intros Hno. unfold exec, transact.
  destruct (dispatch env c (s, [])) as [[] [s' log]|e σ] eqn:H; simpl;
    [|done].
  destruct c as [a|a|a|p|n|t|bid|bid x q|bid|r cts proof];
    run_call_in H; tests_to_props; simplify_eq; storage; try done.
  repeat split; try done.
  all: destruct (decide (bid = id)) as [->|Hne];
    [by rewrite mget_insert_eq|by rewrite mget_insert_ne].
Qed.

(** An address that is not the owner is turned away by every
    owner-only entry point, before anything else is looked at. *)
Lemma not_owner_rejected env c s log :
  owner_only c = true → msg_sender env ≠ owner s →
  dispatch env c (s, log) = Reverted NotOwner (s, log).
Proof.
  intros Ho Hne. apply N.eqb_neq in Hne.
  destruct c; try discriminate Ho; simpl.
  all: unfold transferOwnership, addProvider, removeProvider, setPaused,
         setCooldownSeconds, openBatch, closeBatch, requestAuctionSettlement,
         onlyOwner, bind, get, revert_if; simpl.
  all: by rewrite Hne.
Qed.

(** X3: [transferOwnership] by the owner hands the role to the given
    address, any address, and logs both.  The provider set is not
    touched: the previous owner, if another address, is turned away
    with [NotOwner] by every owner-only entry point from then on, and a
    new owner that is no provider still cannot submit bids. *)
Theorem X3_transfer_of_ownership env a s :
  msg_sender env = owner s →
  transact (transferOwnership env a) s =
    Success (set_owner a s) [OwnershipTransferred (owner s) a]
  ∧ providers (set_owner a s) = providers s
  ∧ (a ≠ owner s →
     ∀ env' c log, msg_sender env' = owner s → owner_only c = true →
       dispatch env' c (set_owner a s, log) = Reverted NotOwner (set_owner a s, log))
  ∧ (∀ env' id x q, msg_sender env' = a → mget (providers s) a = false →
       transact (submitBid env' id x q) (set_owner a s) = Failure NotProvider).
Proof.
  intros Ho. split; [|split; [done|split]].
  - unfold transact, transferOwnership, onlyOwner, bind, get, revert_if, modify,
      emit; simpl.
    by rewrite Ho, N.eqb_refl.
  - intros Hne env' c log Hs Hc. apply not_owner_rejected; [done|].
    storage. congruence.
  - intros env' id x q Hs Hp.
    unfold transact, submitBid, onlyProvider, bind, get, revert_if; simpl.
    by rewrite Hs, Hp.
Qed.

(** X4: for the owner, [addProvider] and [removeProvider] set the flag
    of the given address and of no other; the later call wins; and a
    removed provider is turned away by [submitBid] with [NotProvider]. *)
Theorem X4_provider_registry env p s :
  msg_sender env = owner s →
  (∀ q, mget (providers (exec env (AddProvider p) s)) q
        = if decide (q = p) then true else mget (providers s) q)
  ∧ (∀ q, mget (providers (exec env (RemoveProvider p) s)) q
        = if decide (q = p) then false else mget (providers s) q)
  ∧ (∀ env' id x q, msg_sender env' = p →
       transact (submitBid env' id x q) (exec env (RemoveProvider p) s)
         = Failure NotProvider)
  ∧ (∀ env', msg_sender env' = owner s →
       mget (providers (exec env' (RemoveProvider p) (exec env (AddProvider p) s))) p
         = false
       ∧ mget (providers (exec env' (AddProvider p) (exec env (RemoveProvider p) s))) p
         = true).
Proof.
  intros Ho.
  assert (exec env (AddProvider p) s
          = set_providers (<[p:=true]> (providers s)) s) as Hadd.
  { unfold exec, transact, dispatch, addProvider, onlyOwner, bind, get,
      revert_if, modify, emit; simpl. by rewrite Ho, N.eqb_refl. }
  assert (exec env (RemoveProvider p) s
          = set_providers (<[p:=false]> (providers s)) s) as Hrem.
  { unfold exec, transact, dispatch, removeProvider, onlyOwner, bind, get,
      revert_if, modify, emit; simpl. by rewrite Ho, N.eqb_refl. }
  split; [|split; [|split]].
  - intros q. rewrite Hadd. storage. case_decide as Hq.
    + subst. by rewrite mget_insert_eq.
    + by rewrite mget_insert_ne.
  - intros q. rewrite Hrem. storage. case_decide as Hq.
    + subst. by rewrite mget_insert_eq.
    + by rewrite mget_insert_ne.
  - intros env' id x q Hs. rewrite Hrem.
    unfold transact, submitBid, onlyProvider, bind, get, revert_if; simpl.
    by rewrite Hs, mget_insert_eq.
  - intros env' Hs. rewrite Hadd, Hrem.
    unfold exec, transact, dispatch, addProvider, removeProvider, onlyOwner,
      bind, get, revert_if, modify, emit; simpl.
    rewrite Hs, N.eqb_refl. simpl. by rewrite !mget_insert_eq.
Qed.

(** X5: on a contract that is not paused, [setPaused(true)] by the
    owner blocks every gated entry point, and [setPaused(false)] gives
    back the very storage there was before the two calls. *)
Theorem X5_pause_round_trip env env' s :
  msg_sender env = owner s → msg_sender env' = owner s → paused s = false →
  transact (setPaused env true) s
    = Success (set_paused true s) [ContractPaused (msg_sender env)]
  ∧ (∀ env'' c, gated c = true →
       ∃ e, transact (dispatch env'' c) (set_paused true s) = Failure e)
  ∧ transact (setPaused env' false) (set_paused true s)
    = Success s [ContractUnpaused (msg_sender env')].
Proof.
  intros Ho Ho' Hp. split; [|split].
  - unfold transact, setPaused, onlyOwner, bind, get, revert_if, modify, emit;
      simpl. by rewrite Ho, N.eqb_refl.
  - intros env'' c Hg. unfold transact.
    destruct (role_ok env'' c (set_paused true s)) eqn:Hrole.
    + rewrite gated_pause_second; eauto.
    + rewrite gated_role_first; eauto.
  - unfold transact, setPaused, onlyOwner, bind, get, revert_if, modify, emit;
      simpl. rewrite Ho', N.eqb_refl. simpl.
    unfold set_paused; simpl. rewrite <- Hp. by rewrite storage_eta.
Qed.

End Administration.

(** ** Issued ids and the bid ledger *)

Section Issued.

Context {L : FHE.Lib} {K : Keccak}.

Lemma issued_ok_deploy env s log :
  constructor env (empty_storage, []) = Returned tt (s, log) → issued_ok s.
Proof.
  intros H. run_call_in H; simplify_eq. split; storage; [lia|].
  intros id [Hpos Hlt]. storage_in Hlt. assert (id = 1) as -> by lia.
  rewrite lookup_insert_eq. eauto.
Qed.

Lemma issued_ok_call env c s s' log :
  issued_ok s → dispatch env c (s, []) = Returned tt (s', log) → issued_ok s'.
Proof.
  intros [Hc Hk] H.
  destruct c as [a|a|a|p|n|t|bid|bid x q|bid|r cts proof];
    run_call_in H; tests_to_props; simplify_eq; try done.
  - (* openBatch *)
    split; storage; [lia|]. intros id [Hpos Hlt]. storage_in Hlt.
    destruct (decide (id = currentBatchId s)) as [->|Hne].
    + rewrite lookup_insert_eq. eauto.
    + rewrite lookup_insert_ne by done. apply Hk. split; lia.
  - (* closeBatch *)
    split; storage; [done|]. intros id Hid.
    destruct (Hk id Hid) as (b & Hb & Hbid).
    destruct (decide (bid = id)) as [->|Hne].
    + rewrite lookup_insert_eq, (mget_Some _ _ _ Hb). eauto.
    + rewrite lookup_insert_ne by done. eauto.
  - (* submitBid *)
    split; storage; [done|]. intros id Hid.
    destruct (Hk id Hid) as (b & Hb & Hbid).
    destruct (decide (bid = id)) as [->|Hne].
    + rewrite lookup_insert_eq, (mget_Some _ _ _ Hb). eauto.
    + rewrite lookup_insert_ne by done. eauto.
Qed.

Lemma reachable_issued_ok self s : reachable self s → issued_ok s.
Proof.
  induction 1 as [env s log Hself Hc|env c s Hself _ IH].
  - by eapply issued_ok_deploy.
  - unfold exec, transact.
    destruct (dispatch env c (s, [])) as [[] [s' log]|e σ] eqn:H; simpl; [|done].
    by eapply issued_ok_call.
Qed.

(** X6: in every reachable storage the id counter is at least 2, the
    batches stored are exactly those with an id from 1 to below the
    counter, each carries its own id, and every other id, 0 included,
    reads as a closed batch without bids. *)
Theorem X6_issued_batch_ids self s :
  reachable self s →
  2 ≤ currentBatchId s
  ∧ (∀ id, known s id ↔ is_Some (batches s !! id))
  ∧ (∀ id, known s id → batchId (mget (batches s) id) = id)
  ∧ (∀ id, ¬ known s id →
       isOpen (mget (batches s) id) = false ∧ bids (mget (batches s) id) = []).
Proof.
  intros Hreach. apply reachable_wf in Hreach as Hwf.
  apply reachable_issued_ok in Hreach as [Hc Hk].
  assert (∀ id, ¬ known s id → batches s !! id = None) as Hnone.
  { intros id Hunk. unfold known in Hunk.
    destruct (decide (currentBatchId s ≤ id)) as [Hge|Hlt].
    - by apply (wf_fresh _ _ Hwf).
    - assert (id = 0) as -> by lia. apply (wf_zero _ _ Hwf). }
  split; [done|]. split; [|split].
  - intros id. split.
    + intros Hid. destruct (Hk id Hid) as (b & -> & _). eauto.
    + intros Hsome. destruct (decide (known s id)) as [|Hunk]; [done|].
      rewrite (Hnone id Hunk) in Hsome. by destruct Hsome.
  - intros id Hid. destruct (Hk id Hid) as (b & Hb & Hbid).
    by rewrite (mget_Some _ _ _ Hb).
  - intros id Hunk. by rewrite (mget_None _ _ (Hnone id Hunk)).
Qed.

(** No call writes to a closed batch. *)
Lemma closed_frozen_exec env c s id :
  closed s id → mget (batches (exec env c s)) id = mget (batches s) id.
Proof.
  intros [[Hpos Hlt] Hc]. unfold exec, transact.
  destruct (dispatch env c (s, [])) as [[] [s' log]|e σ] eqn:H; simpl;
    [|done].
  destruct c as [a|a|a|p|n|t|bid|bid x q|bid|r cts proof];
    run_call_in H; tests_to_props; simplify_eq; storage; try done.
  - rewrite mget_insert_ne by lia. done.
  - rewrite mget_insert_ne by congruence. done.
  - rewrite mget_insert_ne by congruence. done.
Qed.

(** X7: no sequence of transactions changes anything of a closed
    batch: its bids, its deadline, its id and its state stay. *)
Theorem X7_closed_batch_is_frozen txs s id :
  closed s id →
  mget (batches (replay txs s)) id = mget (batches s) id.
Proof.
  revert s. induction txs as [|[env c] txs IH]; intros s Hc; simpl; [done|].
  rewrite IH by (by apply closed_exec). by apply closed_frozen_exec.
Qed.

(** One call: bids are only appended, deadlines and ids stay, the id
    counter does not go back. *)
Lemma ledger_grows_exec self env c s id :
  wf self s →
  bids (mget (batches s) id) `prefix_of` bids (mget (batches (exec env c s)) id)
  ∧ currentBatchId s ≤ currentBatchId (exec env c s)
  ∧ (known s id →
     closeTimestamp (mget (batches (exec env c s)) id)
       = closeTimestamp (mget (batches s) id)).
Proof.
  intros Hwf. unfold exec, transact.
  destruct (dispatch env c (s, [])) as [[] [s' log]|e σ] eqn:H; simpl;
    [|done].
  destruct c as [a|a|a|p|n|t|bid|bid x q|bid|r cts proof];
    run_call_in H; tests_to_props; simplify_eq; storage; try done.
  - (* openBatch *)
    destruct (decide (id = currentBatchId s)) as [->|Hne].
    + rewrite mget_insert_eq.
      rewrite (mget_None _ _ (wf_fresh _ _ Hwf (currentBatchId s) (N.le_refl _))).
      repeat split; [apply prefix_nil|lia|]. intros [_ Hlt]. lia.
    + rewrite mget_insert_ne by done. repeat split; [done|lia].
  - (* closeBatch *)
    destruct (decide (bid = id)) as [->|Hne].
    + by rewrite mget_insert_eq.
    + by rewrite mget_insert_ne.
  - (* submitBid *)
    destruct (decide (bid = id)) as [->|Hne].
    + rewrite mget_insert_eq. storage. repeat split; try done.
      by apply prefix_app_r.
    + by rewrite mget_insert_ne.
Qed.

(** X8: along every sequence of transactions the bids of a batch only
    grow at the end (no bid is changed or removed), the id counter
    never goes back, an issued id stays issued and keeps its deadline. *)
Theorem X8_bid_ledger_is_append_only self txs s id :
  reachable self s → Forall (λ tx, this (fst tx) = self) txs →
  bids (mget (batches s) id) `prefix_of` bids (mget (batches (replay txs s)) id)
  ∧ currentBatchId s ≤ currentBatchId (replay txs s)
  ∧ (known s id →
     known (replay txs s) id
     ∧ closeTimestamp (mget (batches (replay txs s)) id)
       = closeTimestamp (mget (batches s) id)).
Proof.
  intros Hreach Hall. revert s Hreach.
  induction Hall as [|[env c] txs Hself _ IH]; intros s Hreach; simpl.
  { split; [done|]. split; [lia|]. intros Hk. by split. }
  apply reachable_wf in Hreach as Hwf.
  destruct (ledger_grows_exec self env c s id Hwf) as (Hp & Hc & Ht).
  destruct (IH (exec env c s)) as (Hp' & Hc' & Ht').
  { by apply reach_call. }
  split; [by etrans|]. split; [lia|].
  intros Hk. assert (known (exec env c s) id) as Hk'.
  { destruct Hk. split; [done|lia]. }
  destruct (Ht' Hk') as [Hk'' Ht'']. split; [done|].
  rewrite Ht''. by apply Ht.
Qed.

End Issued.

(** ** When the batch and bid entry points go through *)

Section Outcomes.

Context {L : FHE.Lib} {K : Keccak}.

Lemma submitBid_outcome env id x q s :
  (may_submit env id s ↔ ∃ s' log, transact (submitBid env id x q) s = Success s' log)
  ∧ ∀ s' log, transact (submitBid env id x q) s = Success s' log →
      log = [BidSubmitted (msg_sender env) id]
      ∧ bids (mget (batches s') id) =
          bids (mget (batches s) id) ++
          [{| encryptedBidAmount := x; encryptedAdQualityScore := q;
              bidder := msg_sender env |}]
      ∧ isOpen (mget (batches s') id) = true
      ∧ closeTimestamp (mget (batches s') id) = closeTimestamp (mget (batches s) id)
      ∧ (∀ id', id' ≠ id → mget (batches s') id' = mget (batches s) id')
      ∧ mget (lastSubmissionTime s') (msg_sender env) = block_timestamp env
      ∧ (∀ a, a ≠ msg_sender env →
           mget (lastSubmissionTime s') a = mget (lastSubmissionTime s) a)
      ∧ owner s' = owner s ∧ providers s' = providers s ∧ paused s' = paused s
      ∧ cooldownSeconds s' = cooldownSeconds s
      ∧ lastDecryptionRequestTime s' = lastDecryptionRequestTime s
      ∧ decryptionContexts s' = decryptionContexts s
      ∧ currentBatchId s' = currentBatchId s.
Proof.
  unfold transact, may_submit, cooled_down.
  destruct (submitBid env id x q (s, [])) as [[] [s1 log1]|e σ] eqn:H;
    run_call_in H; tests_to_props; simplify_eq.
  all: split; [split|].
  all: try (intros (? & ? & [? ?] & ? & ? & ?); exfalso; (lia || congruence)).
  all: try (by intros (? & ? & ?)).
  all: try done.
  - intros _. eauto.
  - intros s' log Heq. simplify_eq. storage.
    rewrite !mget_insert_eq. storage. split_and!; try done.
    + intros id' Hne. by rewrite mget_insert_ne.
    + intros a Hne. by rewrite mget_insert_ne.
Qed.

(** X9: [submitBid] goes through exactly when the caller is a
    provider, the contract is not paused, the caller's cooldown has
    elapsed, and the batch is issued, open and not full; the deadline
    of the batch and the time play no other part.  It then appends one
    bid, with the caller as bidder, to that batch, sets the caller's
    submission clock to the block time, logs [BidSubmitted] and changes
    nothing else. *)
Theorem X9_submitBid_outcome env id x q s :
  (may_submit env id s ↔ ∃ s' log, transact (submitBid env id x q) s = Success s' log)
  ∧ ∀ s' log, transact (submitBid env id x q) s = Success s' log →
      log = [BidSubmitted (msg_sender env) id]
      ∧ bids (mget (batches s') id) =
          bids (mget (batches s) id) ++
          [{| encryptedBidAmount := x; encryptedAdQualityScore := q;
              bidder := msg_sender env |}]
      ∧ isOpen (mget (batches s') id) = true
      ∧ closeTimestamp (mget (batches s') id) = closeTimestamp (mget (batches s) id)
      ∧ (∀ id', id' ≠ id → mget (batches s') id' = mget (batches s) id')
      ∧ mget (lastSubmissionTime s') (msg_sender env) = block_timestamp env
      ∧ (∀ a, a ≠ msg_sender env →
           mget (lastSubmissionTime s') a = mget (lastSubmissionTime s) a)
      ∧ owner s' = owner s ∧ providers s' = providers s ∧ paused s' = paused s
      ∧ cooldownSeconds s' = cooldownSeconds s
      ∧ lastDecryptionRequestTime s' = lastDecryptionRequestTime s
      ∧ decryptionContexts s' = decryptionContexts s
      ∧ currentBatchId s' = currentBatchId s.
Proof. apply submitBid_outcome. Qed.

(** X10: after a submit that went through at time [t], every submit
    by the same address before [t + cooldownSeconds] fails with
    [CooldownActive], whatever the batch; from [t + cooldownSeconds] on
    the cooldown test passes; and the clocks of the other addresses are
    as they were. *)
Theorem X10_cooldown_between_submits env env' id id' x q x' q' s s' log :
  transact (submitBid env id x q) s = Success s' log →
  msg_sender env' = msg_sender env →
  block_timestamp env + cooldownSeconds s ≤ UINT256_MAX →
  (block_timestamp env' < block_timestamp env + cooldownSeconds s →
   transact (submitBid env' id' x' q') s' = Failure CooldownActive)
  ∧ (block_timestamp env + cooldownSeconds s ≤ block_timestamp env' →
     cooled_down (lastSubmissionTime s') env' s')
  ∧ (∀ env'', msg_sender env'' ≠ msg_sender env →
       cooled_down (lastSubmissionTime s) env'' s →
       cooled_down (lastSubmissionTime s') env'' s').
Proof.
  intros Hrun Hs Hfit.
  destruct (submitBid_outcome env id x q s) as [Hiff Hpost].
  destruct (Hpost s' log Hrun)
    as (_ & _ & _ & _ & _ & Hlast & Hother & _ & Hprov & Hp & Hcd & _).
  destruct (proj2 Hiff (ex_intro _ s' (ex_intro _ log Hrun)))
    as (Hpr & Hnp & _).
  unfold cooled_down. rewrite Hcd. split; [|split].
  - intros Hearly. unfold transact.
    destruct (submitBid env' id' x' q' (s', [])) as [[] [s2 log2]|e σ] eqn:H;
      run_call_in H; tests_to_props; simplify_eq;
      rewrite ?Hs, ?Hlast, ?Hprov, ?Hp, ?Hcd in *; try lia; try congruence.
  - intros Hlate. rewrite Hs, Hlast. lia.
  - intros env'' Hne Hc. by rewrite Hother.
Qed.

(** X11: [setCooldownSeconds] takes any value.  When the sum of a
    caller's last action time and the cooldown passes the largest
    [uint256], [submitBid] and [requestAuctionSettlement] fail with
    the arithmetic panic, not with [CooldownActive], at every time. *)
Theorem X11_cooldown_sum_overflow env n s :
  msg_sender env = owner s →
  transact (setCooldownSeconds env n) s
    = Success (set_cooldownSeconds n s)
              [CooldownSecondsUpdated (cooldownSeconds s) n]
  ∧ (∀ env' id x q,
       mget (providers s) (msg_sender env') = true → paused s = false →
       UINT256_MAX < mget (lastSubmissionTime s) (msg_sender env') + n →
       transact (submitBid env' id x q) (set_cooldownSeconds n s)
         = Failure PanicOverflow)
  ∧ (∀ env' id,
       msg_sender env' = owner s → paused s = false →
       id < currentBatchId s → isOpen (mget (batches s) id) = false →
       (2 ≤ length (bids (mget (batches s) id)))%nat →
       UINT256_MAX < mget (lastDecryptionRequestTime s) (msg_sender env') + n →
       transact (requestAuctionSettlement env' id) (set_cooldownSeconds n s)
         = Failure PanicOverflow).
Proof.
  intros Ho. split; [|split].
  - unfold transact, setCooldownSeconds, onlyOwner, bind, get, revert_if, modify,
      emit; simpl. by rewrite Ho, N.eqb_refl.
  - intros env' id x q Hprov Hp Hover. unfold transact.
    destruct (submitBid env' id x q (set_cooldownSeconds n s, []))
      as [[] [s2 log2]|e σ] eqn:H;
      run_call_in H; tests_to_props; simplify_eq; try lia; congruence.
  - intros env' id Ho' Hp Hlt Hc Hlen Hover. unfold transact.
    destruct (requestAuctionSettlement env' id (set_cooldownSeconds n s, []))
      as [[] [s2 log2]|e σ] eqn:H;
      run_call_in H; tests_to_props; simplify_eq; try lia; try congruence.
Qed.

(** X12: [closeBatch] goes through exactly when the caller is the
    owner, the contract is not paused and the batch is issued and
    open, before or after its deadline.  It then clears the open flag
    of that batch, keeps its bids and its deadline, touches no other
    batch and logs [BatchClosed]. *)
Theorem X12_closeBatch_outcome env id s :
  (may_close env id s ↔ ∃ s' log, transact (closeBatch env id) s = Success s' log)
  ∧ ∀ s' log, transact (closeBatch env id) s = Success s' log →
      log = [BatchClosedEvent id]
      ∧ s' = set_batches
               (<[id := set_isOpen false (mget (batches s) id)]> (batches s)) s
      ∧ isOpen (mget (batches s') id) = false
      ∧ bids (mget (batches s') id) = bids (mget (batches s) id)
      ∧ closeTimestamp (mget (batches s') id) = closeTimestamp (mget (batches s) id)
      ∧ (∀ id', id' ≠ id → mget (batches s') id' = mget (batches s) id').
Proof.
  unfold transact, may_close.
  destruct (closeBatch env id (s, [])) as [[] [s1 log1]|e σ] eqn:H;
    run_call_in H; tests_to_props; simplify_eq.
  all: split; [split|].
  all: try (intros (? & ? & ? & ?); exfalso; (lia || congruence)).
  all: try (by intros (? & ? & ?)).
  all: try done.
  - intros _. eauto.
  - intros s' log Heq. simplify_eq. storage.
    rewrite !mget_insert_eq. storage. split_and!; try done.
    intros id' Hne. by rewrite mget_insert_ne.
Qed.

(** X13: [openBatch] goes through exactly when the caller is the
    owner, the contract is not paused and the id counter is below the
    largest [uint256] (at which it fails with the arithmetic panic),
    for any deadline, past or future.  The new batch takes the id of
    the counter, open and empty, the counter moves by one, and no other
    batch is touched. *)
Theorem X13_openBatch_outcome env t s :
  (may_open env s ↔ ∃ s' log, transact (openBatch env t) s = Success s' log)
  ∧ (msg_sender env = owner s → paused s = false →
     currentBatchId s = UINT256_MAX →
     transact (openBatch env t) s = Failure PanicOverflow)
  ∧ ∀ s' log, transact (openBatch env t) s = Success s' log →
      log = [BatchOpened (currentBatchId s) t]
      ∧ currentBatchId s' = currentBatchId s + 1
      ∧ mget (batches s') (currentBatchId s) =
          {| batchId := currentBatchId s; isOpen := true;
             closeTimestamp := t; bids := [] |}
      ∧ (∀ id, id ≠ currentBatchId s → mget (batches s') id = mget (batches s) id).
Proof.
  unfold transact, may_open.
  destruct (openBatch env t (s, [])) as [[] [s1 log1]|e σ] eqn:H;
    run_call_in H; tests_to_props; simplify_eq.
  all: split; [split|split].
  all: try (intros (? & ? & ?); exfalso;
            (unfold UINT256_MAX in *; lia || congruence)).
  all: try (by intros (? & ? & ?)).
  all: try (intros ? ? ?; exfalso; (unfold UINT256_MAX in *; lia || congruence)).
  all: try done.
  - intros _. eauto.
  - intros _. split_and!; try done. unfold UINT256_MAX in *. lia.
  - intros s' log Heq. simplify_eq. storage.
    rewrite !mget_insert_eq. split_and!; try done.
    intros id' Hne. by rewrite mget_insert_ne.
Qed.

End Outcomes.

(** ** When settlement goes through *)

Section Settlement.

Context {L : FHE.Lib} {K : Keccak}.

Lemma requestAuctionSettlement_outcome env id s :
  (may_request env id s ↔
   ∃ s' log, transact (requestAuctionSettlement env id) s = Success s' log)
  ∧ ∀ s' log, transact (requestAuctionSettlement env id) s = Success s' log →
      (∃ b0 b1 rest,
         bids (mget (batches s) id) = b0 :: b1 :: rest
         ∧ log = [RequestDecryptionCall (tournament_cts (tournament b0 b1 rest));
                  DecryptionRequested (oracle_requestId env) id]
         ∧ mget (decryptionContexts s') (oracle_requestId env) =
             {| ctx_batchId := id;
                ctx_stateHash :=
                  keccak256_encode (tournament_cts (tournament b0 b1 rest)) (this env);
                ctx_processed := false |})
      ∧ (∀ r, r ≠ oracle_requestId env →
           decryptionContexts s' !! r = decryptionContexts s !! r)
      ∧ batches s' = batches s
      ∧ mget (lastDecryptionRequestTime s') (msg_sender env) = block_timestamp env
      ∧ lastSubmissionTime s' = lastSubmissionTime s
      ∧ currentBatchId s' = currentBatchId s.
Proof.
  unfold transact, may_request, cooled_down.
  destruct (requestAuctionSettlement env id (s, [])) as [[] [s1 log1]|e σ] eqn:H;
    run_call_in H; tests_to_props; simplify_eq.
  all: split; [split|].
  all: try (by intros (? & ? & ?)).
  all: try (intros (? & ? & ? & ? & ? & ? & ?); exfalso;
            first [lia | congruence
                  | match goal with
                    | Hn : bids _ !! _ = None |- _ =>
                        apply lookup_ge_None in Hn; lia
                    end]).
  all: try done.
  - intros _. eauto.
  - intros _. split_and!; try (done || lia).
  - intros s' log Heq. simplify_eq. storage.
    rewrite !mget_insert_eq. split_and!; try done.
    + destruct (bids (mget (batches s) id)) as [|x0 [|x1 rest]] eqn:Hb;
        simplify_eq. simpl in *. simplify_eq.
      exists b, b0, rest. by rewrite drop_0.
    + intros r Hne. by rewrite lookup_insert_ne.
Qed.

(** X14: [requestAuctionSettlement] goes through exactly when the
    caller is the owner, the contract is not paused, the batch is
    below the id counter, closed, with two bids or more, and the
    caller's request cooldown has elapsed; earlier requests and
    settlements of the batch play no part.  It then hands the two
    ciphertexts of the tournament to the oracle and writes, under the
    request id the oracle gave, a context that is not processed,
    whatever was stored under that id; no other context and no batch
    changes. *)
Theorem X14_requestAuctionSettlement_outcome env id s :
  (may_request env id s ↔
   ∃ s' log, transact (requestAuctionSettlement env id) s = Success s' log)
  ∧ ∀ s' log, transact (requestAuctionSettlement env id) s = Success s' log →
      (∃ b0 b1 rest,
         bids (mget (batches s) id) = b0 :: b1 :: rest
         ∧ log = [RequestDecryptionCall (tournament_cts (tournament b0 b1 rest));
                  DecryptionRequested (oracle_requestId env) id]
         ∧ mget (decryptionContexts s') (oracle_requestId env) =
             {| ctx_batchId := id;
                ctx_stateHash :=
                  keccak256_encode (tournament_cts (tournament b0 b1 rest)) (this env);
                ctx_processed := false |})
      ∧ (∀ r, r ≠ oracle_requestId env →
           decryptionContexts s' !! r = decryptionContexts s !! r)
      ∧ batches s' = batches s
      ∧ mget (lastDecryptionRequestTime s') (msg_sender env) = block_timestamp env
      ∧ lastSubmissionTime s' = lastSubmissionTime s
      ∧ currentBatchId s' = currentBatchId s.
Proof. apply requestAuctionSettlement_outcome. Qed.

(** X15: a closed batch of exactly two bids settles: the request hands
    the handles of slots 0 and 1 to the oracle, and the callback with a
    proof the library accepts and a payload of two 32-bit words goes
    through, logging the two decoded words, as they come, with the
    bidder of slot 0, and marking the context processed. *)
Theorem X15_two_bid_settlement env env' id s b0 b1 cts proof :
  may_request env id s →
  bids (mget (batches s) id) = [b0; b1] →
  this env' = this env →
  FHE.checkSignatures (oracle_requestId env) cts proof = true →
  payload_ok cts →
  ∃ s1 s2,
    transact (requestAuctionSettlement env id) s =
      Success s1 [RequestDecryptionCall
                    [FHE.toBytes32 (encryptedBidAmount b0);
                     FHE.toBytes32 (encryptedBidAmount b1)];
                  DecryptionRequested (oracle_requestId env) id]
    ∧ transact (myCallback env' (oracle_requestId env) cts proof) s1 =
        Success s2 [AuctionSettled id (word_of_bytes (take 32 cts)) (bidder b0)
                      (word_of_bytes (take 32 (drop 32 cts)))]
    ∧ ctx_processed (mget (decryptionContexts s2) (oracle_requestId env)) = true
    ∧ batches s2 = batches s.
Proof.
  intros Hmay Hb Hthis Hsig (Hlen & Hw0 & Hw1).
  destruct (requestAuctionSettlement_outcome env id s) as [Hiff Hpost].
  destruct (proj1 Hiff Hmay) as (s1 & log & Hrun).
  destruct (Hpost s1 log Hrun)
    as ((x0 & x1 & rest & Hb' & -> & Hctx) & _ & Hbat & _).
  rewrite Hb in Hb'. simplify_eq.
  exists s1. unfold transact at 2.
  destruct (myCallback env' (oracle_requestId env) cts proof (s1, []))
    as [[] [s2 log2]|e σ] eqn:H.
  - exists s2. split; [done|].
    apply myCallback_returned in H
      as (_ & _ & -> & y0 & y1 & H0 & H1 & _ & ->).
    rewrite Hctx, Hbat in H0, H1. storage_in H0. storage_in H1.
    rewrite Hb in H0, H1. simpl in H0, H1. simplify_eq.
    rewrite Hctx. storage. rewrite mget_insert_eq. done.
  - exfalso. run_call_in H; tests_to_props; simplify_eq.
    all: repeat match goal with
         | Hn : (_ <=? _)%nat = false |- _ => apply Nat.leb_gt in Hn
         | Hn : (_ <=? _)%nat = true |- _ => apply Nat.leb_le in Hn
         end.
    all: rewrite ?Hctx in *; cbn [ctx_batchId ctx_stateHash ctx_processed] in *;
      rewrite ?Hbat, ?Hb, ?drop_0 in *; cbn [Nat.sub] in *;
      repeat match goal with
             | Hl : (_ :: _) !! _ = _ |- _ => simpl in Hl
             end;
      simplify_eq; try lia; try congruence.
    all: match goal with
         | Hd : bool_decide _ = false |- _ =>
             apply bool_decide_eq_false in Hd; apply Hd;
             unfold _hashCiphertexts, tournament_cts, tournament; simpl;
             by rewrite Hthis
         end.
Qed.

(** X16: on a context that is not processed, [myCallback] fails with
    the index panic when the batch of the context has fewer than two
    bids; otherwise with [InvalidStateHash] when the hash of slots 0
    and 1 is not the stored one, whatever the proof; otherwise, when
    the library refuses the proof, with the revert of the library,
    whatever the payload; and with an accepted proof and a payload of
    two 32-bit words it goes through.  It never fails with the
    [InvalidProof] the contract declares. *)
Theorem X16_callback_checks_in_order env r cts proof s :
  ctx_processed (mget (decryptionContexts s) r) = false →
  let ctx := mget (decryptionContexts s) r in
  let slots := bids (mget (batches s) (ctx_batchId ctx)) in
  transact (myCallback env r cts proof) s ≠ Failure InvalidProof
  ∧ ((length slots < 2)%nat →
     transact (myCallback env r cts proof) s = Failure PanicIndex)
  ∧ ∀ b0 b1 rest, slots = b0 :: b1 :: rest →
      let h := keccak256_encode [FHE.toBytes32 (encryptedBidAmount b0);
                                 FHE.toBytes32 (encryptedBidAmount b1)] (this env) in
      (h ≠ ctx_stateHash ctx →
       transact (myCallback env r cts proof) s = Failure InvalidStateHash)
      ∧ (h = ctx_stateHash ctx → FHE.checkSignatures r cts proof = false →
         transact (myCallback env r cts proof) s = Failure LibraryRevert)
      ∧ (h = ctx_stateHash ctx → FHE.checkSignatures r cts proof = true →
         payload_ok cts →
         transact (myCallback env r cts proof) s =
           Success (set_decryptionContexts
                      (<[r := set_processed true ctx]> (decryptionContexts s)) s)
                   [AuctionSettled (ctx_batchId ctx) (word_of_bytes (take 32 cts))
                      (bidder b0) (word_of_bytes (take 32 (drop 32 cts)))]).
Proof.
  intros Hproc ctx slots. subst ctx slots. unfold transact, payload_ok.
  destruct (myCallback env r cts proof (s, [])) as [[] [s1 log1]|e σ] eqn:H;
    run_call_in H; tests_to_props; nat_tests; simplify_eq;
    rewrite ?drop_0 in *; cbn [Nat.sub] in *.
  all: split; [discriminate|].
  all: split; [intros Hlen|intros b0' b1' rest Hs; cbn zeta; split_and!].
  all: try (rewrite Hs in *; simpl in *; simplify_eq).
  all: try (intros; exfalso; (lia || congruence)).
  all: try (intros; done).
  all: try (intros ? ? (? & ? & ?); exfalso; lia).
  all: try match goal with
       | Hn : _ !! _ = None |- _ => apply lookup_ge_None in Hn; simpl in Hn; lia
       | Hs : _ !! _ = Some _ |- _ => apply lookup_lt_Some in Hs; lia
       end.
Qed.

End Settlement.

(** ** ABI words *)

Lemma word_of_bytes_from (w : list byte) (a : N) :
  fold_left (λ acc b, acc * 256 + Byte.to_N b) w a
  = a * 256 ^ N.of_nat (length w) + word_of_bytes w.
Proof.
  unfold word_of_bytes. revert a.
  induction w as [|b w IH]; intros a; simpl length; simpl fold_left.
  - simpl. lia.
  - rewrite IH, (IH (0 * 256 + Byte.to_N b)).
    rewrite Nat2N.inj_succ, N.pow_succ_r'. lia.
Qed.

Lemma word_of_bytes_app (u w : list byte) :
  word_of_bytes (u ++ w)
  = word_of_bytes u * 256 ^ N.of_nat (length w) + word_of_bytes w.
Proof.
  unfold word_of_bytes at 1. rewrite fold_left_app.
  by rewrite word_of_bytes_from.
Qed.

Lemma word_of_bytes_bound (w : list byte) :
  word_of_bytes w < 256 ^ N.of_nat (length w).
Proof.
  induction w as [|b w IH] using rev_ind; [by vm_compute|].
  rewrite word_of_bytes_app, length_app. simpl length.
  replace (N.of_nat (length w + 1)) with (N.succ (N.of_nat (length w))) by lia.
  rewrite N.pow_succ_r'.
  assert (word_of_bytes [b] = Byte.to_N b) as -> by (unfold word_of_bytes; simpl; lia).
  pose proof (Byte.to_N_bounded b). simpl. lia.
Qed.

Lemma byte_to_N_zero (b : byte) : Byte.to_N b = 0 ↔ b = x00.
Proof.
  split; [|by intros ->].
  intros H. pose proof (Byte.of_to_N b) as Hb. rewrite H in Hb.
  simpl in Hb. by simplify_eq.
Qed.

Lemma word_of_bytes_zero (w : list byte) :
  word_of_bytes w = 0 ↔ Forall (λ b, b = x00) w.
Proof.
  induction w as [|b w IH] using rev_ind.
  - split; [constructor|done].
  - rewrite word_of_bytes_app, Forall_app, Forall_singleton, <- IH.
    assert (word_of_bytes [b] = Byte.to_N b) as -> by (unfold word_of_bytes; simpl; lia).
    rewrite <- byte_to_N_zero. simpl. lia.
Qed.

(** X17: a 32-byte word read big-endian is below 2^256; [abi.decode]
    to [uint32] accepts it exactly when its first 28 bytes are zero,
    and then gives the number held by its last 4 bytes. *)
Theorem X17_uint32_words_decoded (w : list byte) :
  length w = 32%nat →
  word_of_bytes w < 2 ^ 256
  ∧ (word_of_bytes w ≤ UINT32_MAX ↔ Forall (λ b, b = x00) (take 28 w))
  ∧ (∀ {L : FHE.Lib} {K : Keccak} (σ : Store),
       abi_decode_uint32 w σ =
         if decide (Forall (λ b, b = x00) (take 28 w))
         then Returned (word_of_bytes (drop 28 w)) σ
         else Reverted DecodeFailure σ).
Proof.
  intros Hlen.
  pose proof (word_of_bytes_bound w) as Hb. rewrite Hlen in Hb.
  assert (word_of_bytes w
          = word_of_bytes (take 28 w) * 2 ^ 32 + word_of_bytes (drop 28 w)) as Hsplit.
  { rewrite <- (take_drop 28 w) at 1. rewrite word_of_bytes_app.
    rewrite length_drop, Hlen. done. }
  pose proof (word_of_bytes_bound (drop 28 w)) as Hlo.
  rewrite length_drop, Hlen in Hlo.
  change (256 ^ N.of_nat (32 - 28)) with (2 ^ 32) in Hlo.
  change (256 ^ N.of_nat 32) with (2 ^ 256) in Hb.
  assert (word_of_bytes w ≤ UINT32_MAX ↔ Forall (λ b, b = x00) (take 28 w)) as Hiff.
  { rewrite <- word_of_bytes_zero. unfold UINT32_MAX. rewrite Hsplit.
    generalize dependent (2 ^ 32). intros k. intros. nia. }
  split; [done|]. split; [done|].
  intros L K σ. unfold abi_decode_uint32.
  case_decide as Hz.
  - apply Hiff in Hz as Hle. apply N.leb_le in Hle. rewrite Hle.
    apply word_of_bytes_zero in Hz. rewrite Hsplit, Hz. by rewrite N.mul_0_l, N.add_0_l.
  - destruct (word_of_bytes w <=? UINT32_MAX) eqn:Hle; [|done].
    apply N.leb_le, Hiff in Hle. done.
Qed.

(** ** Deployment and the decryption contexts *)

Section Deployment.

Context {L : FHE.Lib} {K : Keccak}.

(** X18: the constructor fails with the arithmetic panic when the
    block time plus one day passes the largest [uint256]; otherwise the
    deployer is owner and the only provider, the contract is not
    paused, the cooldown is 30, batch 1 is open and empty with a
    deadline one day ahead, and the id counter is 2.  The cooldown
    counts from time 0: the deployer's first submit fails with
    [CooldownActive] before block time 30 and goes through from 30 on. *)
Theorem X18_deployment env :
  (UINT256_MAX < block_timestamp env + ONE_DAY →
   transact (constructor env) empty_storage = Failure PanicOverflow)
  ∧ (block_timestamp env + ONE_DAY ≤ UINT256_MAX →
     ∃ s, transact (constructor env) empty_storage
            = Success s [BatchOpened 1 (block_timestamp env + ONE_DAY)]
        ∧ owner s = msg_sender env
        ∧ (∀ a, mget (providers s) a = bool_decide (a = msg_sender env))
        ∧ paused s = false ∧ cooldownSeconds s = 30 ∧ currentBatchId s = 2
        ∧ mget (batches s) 1 =
            {| batchId := 1; isOpen := true;
               closeTimestamp := block_timestamp env + ONE_DAY; bids := [] |}
        ∧ decryptionContexts s = ∅
        ∧ (∀ env' x q, msg_sender env' = msg_sender env →
             (block_timestamp env' < 30 →
              transact (submitBid env' 1 x q) s = Failure CooldownActive)
             ∧ (30 ≤ block_timestamp env' →
                transact (submitBid env' 1 x q) s
                  = Success (exec env' (SubmitBid 1 x q) s)
                            [BidSubmitted (msg_sender env') 1]))).
Proof.
  unfold transact at 1 2.
  destruct (constructor env (empty_storage, [])) as [[] [s1 log1]|e σ] eqn:H;
    run_call_in H; tests_to_props; simplify_eq.
  all: split; [intros Hover|intros Hfit]; try done; try lia.
  all: try (exfalso; unfold UINT256_MAX in *; simpl in *; lia).
  eexists. split; [done|]. storage. unfold address in *. split_and!; try done.
  - intros a. case_bool_decide as Ha.
    + subst. by rewrite mget_insert_eq.
    + by rewrite mget_insert_ne, mget_empty.
  - intros env' x q Hs. split.
    + intros Hearly. unfold transact.
      match goal with |- context [submitBid env' 1 x q (?s0, [])] =>
        destruct (submitBid env' 1 x q (s0, [])) as [[] [s2 log2]|e σ] eqn:H
      end; run_call_in H; tests_to_props; simplify_eq;
        unfold address in *; rewrite ?Hs, ?mget_insert_eq, ?mget_empty in *;
        unfold zero, zero_N, UINT256_MAX in *; simpl in *; try lia; congruence.
    + intros Hlate. unfold exec, dispatch, transact.
      match goal with |- context [submitBid env' 1 x q (?s0, [])] =>
        destruct (submitBid env' 1 x q (s0, [])) as [[] [s2 log2]|e σ] eqn:H
      end; run_call_in H; tests_to_props; simplify_eq;
        unfold address in *; rewrite ?Hs, ?mget_insert_eq, ?mget_empty in *;
        unfold zero, zero_N, UINT256_MAX, MAX_BIDS_PER_BATCH in *;
        simpl in *; try lia; try congruence.
Qed.

(** X19: every decryption context of a reachable storage names an
    issued, closed batch of two bids or more and holds the hash of the
    two ciphertexts the tournament makes of its bids; and a context is
    never removed. *)
Theorem X19_contexts_point_at_closed_batches self s r ctx :
  reachable self s → decryptionContexts s !! r = Some ctx →
  closed s (ctx_batchId ctx)
  ∧ (∃ b0 b1 rest,
       bids (mget (batches s) (ctx_batchId ctx)) = b0 :: b1 :: rest
       ∧ ctx_stateHash ctx =
           keccak256_encode (tournament_cts (tournament b0 b1 rest)) self)
  ∧ ∀ txs, Forall (λ tx, this (fst tx) = self) txs →
      ∃ ctx', decryptionContexts (replay txs s) !! r = Some ctx'.
Proof.
  intros Hreach Hctx. apply reachable_wf in Hreach as Hwf.
  destruct (wf_contexts _ _ Hwf r ctx Hctx) as (Hlt & Hc & b0 & b1 & rest & Hb & Hh).
  split; [|split].
  - split; [split; [|done]|done].
    destruct (decide (ctx_batchId ctx = 0)) as [Hz|]; [|lia].
    rewrite Hz, (mget_None _ _ (wf_zero _ _ Hwf)) in Hb. done.
  - eauto 6.
  - intros txs _. assert (is_Some (decryptionContexts s !! r)) as Hsome by eauto.
    clear -Hsome. revert s Hsome.
    induction txs as [|[env c] txs IH]; intros s Hsome; simpl.
    + destruct Hsome. eauto.
    + apply IH. by apply contexts_persist.
Qed.

End Deployment.

(** ** What the tournament exports *)

Section TournamentExports.

Context {L : FHE.Lib} {LL : FHE.Lawful L}.

(** X20: with a lawful FHE library, the highest ciphertext the
    tournament exports holds the maximum of the amounts of slot 0 and
    of the slots from 2 on; neither it nor the bidder tracked for it
    depends on the bid in slot 1. *)
Theorem X20_exported_highest_ignores_slot_1 b0 b1 b1' rest :
  FHE.decrypt (encryptedHighestBidAmount (tournament b0 b1 rest))
  = fold_left N.max (map (λ b, FHE.decrypt (encryptedBidAmount b)) rest)
              (FHE.decrypt (encryptedBidAmount b0))
  ∧ encryptedHighestBidAmount (tournament b0 b1 rest)
    = encryptedHighestBidAmount (tournament b0 b1' rest)
  ∧ highestBidder (tournament b0 b1 rest) = highestBidder (tournament b0 b1' rest).
Proof.
  split; [apply tournament_highest|].
  unfold tournament.
  generalize (encryptedBidAmount b1) (bidder b1) (encryptedBidAmount b1') (bidder b1').
  generalize (encryptedBidAmount b0) (bidder b0).
  induction rest as [|b rest IH]; intros h hb s sb s' sb'; simpl; [done|].
  unfold tournament_round at 2 4 6 8. simpl. apply IH.
Qed.

(** The running state of the loop: either no bid has displaced the
    seed, or the second is the highest of before the last displacement. *)
Lemma tournament_loop_second rest t :
  let t' := fold_left tournament_round rest t in
  (Forall (λ b, FHE.decrypt (encryptedBidAmount b)
                ≤ FHE.decrypt (encryptedHighestBidAmount t)) rest
   ∧ FHE.decrypt (encryptedHighestBidAmount t')
     = FHE.decrypt (encryptedHighestBidAmount t)
   ∧ FHE.decrypt (encryptedSecondHighestBidAmount t')
     = FHE.decrypt (encryptedSecondHighestBidAmount t))
  ∨ (Exists (λ b, FHE.decrypt (encryptedHighestBidAmount t)
                  < FHE.decrypt (encryptedBidAmount b)) rest
     ∧ FHE.decrypt (encryptedHighestBidAmount t)
       ≤ FHE.decrypt (encryptedSecondHighestBidAmount t')
     ∧ FHE.decrypt (encryptedSecondHighestBidAmount t')
       < FHE.decrypt (encryptedHighestBidAmount t')).
Proof.
  revert t. induction rest as [|b rest IH]; intros t; simpl.
  { left. by split_and!. }
  assert (FHE.decrypt (encryptedHighestBidAmount (tournament_round t b))
          = N.max (FHE.decrypt (encryptedHighestBidAmount t))
                  (FHE.decrypt (encryptedBidAmount b))) as Hhi
    by apply tournament_round_highest.
  assert (FHE.decrypt (encryptedSecondHighestBidAmount (tournament_round t b))
          = if FHE.decrypt (encryptedBidAmount b)
               <=? FHE.decrypt (encryptedHighestBidAmount t)
            then FHE.decrypt (encryptedSecondHighestBidAmount t)
            else FHE.decrypt (encryptedHighestBidAmount t)) as Hsec.
  { unfold tournament_round; simpl.
    rewrite FHE.decrypt_select, FHE.cleartext_ge. by destruct (_ <=? _). }
  specialize (IH (tournament_round t b)). cbv zeta in IH.
  remember (tournament_round t b) as t1 eqn:Ht1. clear Ht1.
  destruct (FHE.decrypt (encryptedBidAmount b)
            <=? FHE.decrypt (encryptedHighestBidAmount t)) eqn:Hle;
    tests_to_props.
  - destruct IH as [(Hall & Hh & Hs)|(Hex & Hlo & Hlt)].
    + left. split_and!.
      * constructor; [done|]. eapply Forall_impl; [exact Hall|].
        intros x Hx. cbv beta in Hx. lia.
      * lia.
      * by rewrite Hs, Hsec.
    + right. split_and!.
      * apply Exists_cons_tl. eapply Exists_impl; [exact Hex|].
        intros x Hx. cbv beta in Hx. lia.
      * lia.
      * done.
  - right. split; [by apply Exists_cons_hd|].
    destruct IH as [(Hall & Hh & Hs)|(Hex & Hlo & Hlt)].
    + rewrite Hs, Hh, Hsec, Hhi. lia.
    + split; lia.
Qed.

(** X21: with a lawful FHE library, either no bid from slot 2 on
    exceeds slot 0, and the tournament exports the amounts of slots 0
    and 1 as they are (whichever is larger); or one does, and the
    exported second is below the exported highest and at least the
    amount of slot 0. *)
Theorem X21_exported_second b0 b1 rest :
  let t := tournament b0 b1 rest in
  let amount b := FHE.decrypt (encryptedBidAmount b) in
  (Forall (λ b, amount b ≤ amount b0) rest
   ∧ FHE.decrypt (encryptedHighestBidAmount t) = amount b0
   ∧ FHE.decrypt (encryptedSecondHighestBidAmount t) = amount b1)
  ∨ (Exists (λ b, amount b0 < amount b) rest
     ∧ amount b0 ≤ FHE.decrypt (encryptedSecondHighestBidAmount t)
     ∧ FHE.decrypt (encryptedSecondHighestBidAmount t)
       < FHE.decrypt (encryptedHighestBidAmount t)).
Proof.
  intros t amount. subst t amount. unfold tournament.
  apply (tournament_loop_second rest
    {| encryptedHighestBidAmount := encryptedBidAmount b0;
       encryptedSecondHighestBidAmount := encryptedBidAmount b1;
       highestBidder := bidder b0; secondHighestBidder := bidder b1 |}).
Qed.

End TournamentExports.

(** ** The further properties on the scenario *)

Section ExtraWitnesses.

Import Scenario.

Lemma X1_witness :
  let s := @with_bidders ClearFHE IdealKeccak in
  exec (at_time 50 2000) (CloseBatch 1) s = s.
Proof.
  intros s.
  destruct (X1_reverting_call_has_written_nothing (at_time 50 2000) (CloseBatch 1)
              s [] NotOwner (s, [])) as [_ Hsame].
  - vm_compute. reflexivity.
  - apply Hsame. reflexivity.
Defined.

Lemma X2_witness :
  let s := @with_bidders ClearFHE IdealKeccak in
  let env := at_time 11 2000 in
  let c := @SubmitBid ClearFHE 1 10 0 in
  owner (exec env c s) = owner s
  ∧ providers (exec env c s) = providers s
  ∧ paused (exec env c s) = paused s
  ∧ cooldownSeconds (exec env c s) = cooldownSeconds s
  ∧ currentBatchId (exec env c s) = currentBatchId s
  ∧ lastDecryptionRequestTime (exec env c s) = lastDecryptionRequestTime s
  ∧ ∀ id, isOpen (mget (batches (exec env c s)) id) = isOpen (mget (batches s) id)
        ∧ closeTimestamp (mget (batches (exec env c s)) id)
          = closeTimestamp (mget (batches s) id).
Proof.
  intros s env c.
  apply (X2_only_the_owner_administers env c s).
  vm_compute. discriminate.
Defined.

Lemma X3_witness :
  let s := @with_bidders ClearFHE IdealKeccak in
  let env := at_time 1 2000 in
  transact (transferOwnership env 12) s =
    Success (set_owner 12 s) [OwnershipTransferred (owner s) 12]
  ∧ providers (set_owner 12 s) = providers s
  ∧ (12 ≠ owner s →
     ∀ env' c log, msg_sender env' = owner s → owner_only c = true →
       dispatch env' c (set_owner 12 s, log) = Reverted NotOwner (set_owner 12 s, log))
  ∧ (∀ env' id x q, msg_sender env' = 12 → mget (providers s) 12 = false →
       transact (submitBid env' id x q) (set_owner 12 s) = Failure NotProvider).
Proof.
  intros s env.
  apply (X3_transfer_of_ownership env 12 s).
  vm_compute. reflexivity.
Defined.

Lemma X4_witness :
  let s := @with_bidders ClearFHE IdealKeccak in
  let env := at_time 1 2000 in
  mget (providers (exec env (RemoveProvider 11) s)) 11 = false
  ∧ mget (providers (exec env (RemoveProvider 11) s)) 12 = true
  ∧ transact (@submitBid ClearFHE IdealKeccak (at_time 11 2100) 1 10 0)
      (exec env (RemoveProvider 11) s) = Failure NotProvider.
Proof.
  intros s env.
  destruct (X4_provider_registry env 11 s) as (_ & Hrem & Hsub & _).
  { vm_compute. reflexivity. }
  split; [apply (Hrem 11)|]. split; [apply (Hrem 12)|].
  apply Hsub. reflexivity.
Defined.

Lemma X5_witness :
  let s := @with_bidders ClearFHE IdealKeccak in
  transact (setPaused (at_time 1 2000) true) s
    = Success (set_paused true s) [ContractPaused 1]
  ∧ transact (setPaused (at_time 1 2100) false) (set_paused true s)
    = Success s [ContractUnpaused 1].
Proof.
  intros s.
  destruct (X5_pause_round_trip (at_time 1 2000) (at_time 1 2100) s)
    as (Hon & _ & Hoff).
  - vm_compute. reflexivity.
  - vm_compute. reflexivity.
  - vm_compute. reflexivity.
  - split; [exact Hon|exact Hoff].
Defined.

Lemma X6_witness :
  let s := @closed_with ClearFHE IdealKeccak 10 30 20 0 in
  2 ≤ currentBatchId s
  ∧ (∀ id, known s id ↔ is_Some (batches s !! id))
  ∧ (∀ id, known s id → batchId (mget (batches s) id) = id)
  ∧ (∀ id, ¬ known s id →
       isOpen (mget (batches s) id) = false ∧ bids (mget (batches s) id) = []).
Proof.
  intros s.
  apply (X6_issued_batch_ids 99 s).
  apply reachable_closed_with.
Defined.

Lemma X7_witness :
  let s := @closed_with ClearFHE IdealKeccak 10 30 20 0 in
  let txs := [(at_time 11 5000, @SubmitBid ClearFHE 1 40 0);
              (at_time 1 5100, OpenBatch 9000);
              (at_time 1 5200, CloseBatch 1)] in
  mget (batches (replay txs s)) 1 = mget (batches s) 1.
Proof.
  intros s txs.
  apply (X7_closed_batch_is_frozen txs s 1).
  split; [split|]; vm_compute; (reflexivity || discriminate).
Defined.

Lemma X8_witness :
  let s := @with_bidders ClearFHE IdealKeccak in
  let txs := [(at_time 11 5000, @SubmitBid ClearFHE 1 40 0);
              (at_time 1 5100, OpenBatch 9000);
              (at_time 12 5200, @SubmitBid ClearFHE 1 50 0)] in
  bids (mget (batches s) 1) `prefix_of` bids (mget (batches (replay txs s)) 1)
  ∧ currentBatchId s ≤ currentBatchId (replay txs s)
  ∧ (known s 1 →
     known (replay txs s) 1
     ∧ closeTimestamp (mget (batches (replay txs s)) 1)
       = closeTimestamp (mget (batches s) 1)).
Proof.
  intros s txs.
  apply (X8_bid_ledger_is_append_only 99 txs s 1).
  - apply reachable_with_bidders.
  - repeat constructor.
Defined.

Lemma X10_witness :
  let s := @with_bidders ClearFHE IdealKeccak in
  let env := at_time 11 2000 in
  let s' := exec env (@SubmitBid ClearFHE 1 10 0) s in
  transact (@submitBid ClearFHE IdealKeccak (at_time 11 2029) 1 20 0) s'
    = Failure CooldownActive
  ∧ cooled_down (lastSubmissionTime s') (at_time 11 2030) s'.
Proof.
  intros s env s'.
  destruct (X10_cooldown_between_submits env (at_time 11 2029) 1 1
              (10 : @FHE.euint32 ClearFHE) (0 : @FHE.euint32 ClearFHE)
              (20 : @FHE.euint32 ClearFHE) (0 : @FHE.euint32 ClearFHE)
              s s' [BidSubmitted 11 1]) as (Hearly & _ & _).
  { vm_compute. reflexivity. }
  { reflexivity. }
  { vm_compute. discriminate. }
  destruct (X10_cooldown_between_submits env (at_time 11 2030) 1 1
              (10 : @FHE.euint32 ClearFHE) (0 : @FHE.euint32 ClearFHE)
              (20 : @FHE.euint32 ClearFHE) (0 : @FHE.euint32 ClearFHE)
              s s' [BidSubmitted 11 1]) as (_ & Hlate & _).
  { vm_compute. reflexivity. }
  { reflexivity. }
  { vm_compute. discriminate. }
  split.
  - apply Hearly. vm_compute. reflexivity.
  - apply Hlate. vm_compute. discriminate.
Defined.

Lemma X11_witness :
  let s := exec (at_time 11 2000) (@SubmitBid ClearFHE 1 10 0)
             (@with_bidders ClearFHE IdealKeccak) in
  transact (setCooldownSeconds (at_time 1 2100) UINT256_MAX) s
    = Success (set_cooldownSeconds UINT256_MAX s)
              [CooldownSecondsUpdated 30 UINT256_MAX]
  ∧ transact (@submitBid ClearFHE IdealKeccak (at_time 11 999999) 1 20 0)
      (set_cooldownSeconds UINT256_MAX s) = Failure PanicOverflow.
Proof.
  intros s.
  destruct (X11_cooldown_sum_overflow (at_time 1 2100) UINT256_MAX s)
    as (Hset & Hsub & _).
  { vm_compute. reflexivity. }
  split; [exact Hset|].
  apply Hsub.
  - vm_compute. reflexivity.
  - vm_compute. reflexivity.
  - vm_compute. reflexivity.
Defined.

Lemma X15_witness :
  let s := @closed_with2 ClearFHE IdealKeccak 10 30 0 in
  ∃ s1 s2,
    transact (requestAuctionSettlement (at_time 1 3000) 1) s =
      Success s1 [RequestDecryptionCall [10; 30]; DecryptionRequested 7 1]
    ∧ transact (myCallback (at_time 5 4000) 7 (abi_word 10 ++ abi_word 30) valid_proof) s1 =
        Success s2 [AuctionSettled 1
                      (word_of_bytes (take 32 (abi_word 10 ++ abi_word 30))) 11
                      (word_of_bytes (take 32 (drop 32 (abi_word 10 ++ abi_word 30))))]
    ∧ ctx_processed (mget (decryptionContexts s2) 7) = true
    ∧ batches s2 = batches s.
Proof.
  intros s.
  apply (X15_two_bid_settlement (at_time 1 3000) (at_time 5 4000) 1 s
           (clear_bid 10 11) (clear_bid 30 12)
           (abi_word 10 ++ abi_word 30) valid_proof).
  - unfold may_request, payload_ok, cooled_down; split_and!; vm_compute;
      first [reflexivity | discriminate | apply le_n].
  - vm_compute. reflexivity.
  - reflexivity.
  - reflexivity.
  - unfold may_request, payload_ok, cooled_down; split_and!; vm_compute;
      first [reflexivity | discriminate | apply le_n].
Defined.

Lemma X16_witness :
  let s := replay [request] (@closed_with ClearFHE IdealKeccak 30 20 10 0) in
  transact (myCallback (at_time 5 4000) 7 (abi_word 30 ++ abi_word 20) []) s
    = Failure LibraryRevert
  ∧ transact (myCallback (at_time 5 4000) 7 (abi_word 30 ++ abi_word 20) valid_proof) s
    = Success (set_decryptionContexts
                 (<[7 := set_processed true (mget (decryptionContexts s) 7)]>
                    (decryptionContexts s)) s)
              [AuctionSettled 1 30 11 20].
Proof.
  intros s.
  destruct (X16_callback_checks_in_order (at_time 5 4000) 7
              (abi_word 30 ++ abi_word 20) [] s) as (_ & _ & Hbad).
  { vm_compute. reflexivity. }
  destruct (X16_callback_checks_in_order (at_time 5 4000) 7
              (abi_word 30 ++ abi_word 20) valid_proof s) as (_ & _ & Hgood).
  { vm_compute. reflexivity. }
  destruct (Hbad (clear_bid 30 11) (clear_bid 20 12) [clear_bid 10 13])
    as (_ & Hproof & _).
  { vm_compute. reflexivity. }
  destruct (Hgood (clear_bid 30 11) (clear_bid 20 12) [clear_bid 10 13])
    as (_ & _ & Hsettle).
  { vm_compute. reflexivity. }
  split.
  - apply Hproof; vm_compute; reflexivity.
  - apply Hsettle; [vm_compute; reflexivity..|].
    unfold payload_ok; split_and!; vm_compute;
      first [reflexivity | discriminate | apply le_n].
Defined.

Lemma X17_witness :
  word_of_bytes (abi_word 30) < 2 ^ 256
  ∧ (word_of_bytes (abi_word 30) ≤ UINT32_MAX
     ↔ Forall (λ b, b = x00) (take 28 (abi_word 30)))
  ∧ (∀ {L : FHE.Lib} {K : Keccak} (σ : Store),
       abi_decode_uint32 (abi_word 30) σ =
         if decide (Forall (λ b, b = x00) (take 28 (abi_word 30)))
         then Returned (word_of_bytes (drop 28 (abi_word 30))) σ
         else Reverted DecodeFailure σ).
Proof.
  apply (X17_uint32_words_decoded (abi_word 30)).
  reflexivity.
Defined.

Lemma X19_witness :
  let s := replay [request] (@closed_with ClearFHE IdealKeccak 30 20 10 0) in
  let ctx := @Build_DecryptionContext IdealKeccak 1 [99; 30; 20] false in
  closed s (ctx_batchId ctx)
  ∧ (∃ b0 b1 rest,
       bids (mget (batches s) (ctx_batchId ctx)) = b0 :: b1 :: rest
       ∧ ctx_stateHash ctx =
           keccak256_encode (tournament_cts (tournament b0 b1 rest)) 99)
  ∧ ∀ txs, Forall (λ tx, this (fst tx) = 99) txs →
      ∃ ctx', decryptionContexts (replay txs s) !! 7 = Some ctx'.
Proof.
  intros s ctx.
  apply (X19_contexts_point_at_closed_batches 99 s 7 ctx).
  - apply reachable_replay; [repeat constructor|]. apply reachable_closed_with.
  - vm_compute. reflexivity.
Defined.

Lemma X20_witness :
  let b0 := clear_bid 10 11 in
  let b1 := clear_bid 30 12 in
  let b1' := clear_bid 5 14 in
  let rest := [clear_bid 20 13] in
  @FHE.decrypt ClearFHE (encryptedHighestBidAmount (tournament b0 b1 rest))
  = fold_left N.max (map (λ b, @FHE.decrypt ClearFHE (encryptedBidAmount b)) rest)
              (@FHE.decrypt ClearFHE (encryptedBidAmount b0))
  ∧ encryptedHighestBidAmount (tournament b0 b1 rest)
    = encryptedHighestBidAmount (tournament b0 b1' rest)
  ∧ highestBidder (tournament b0 b1 rest) = highestBidder (tournament b0 b1' rest).
Proof.
  intros b0 b1 b1' rest.
  apply (@X20_exported_highest_ignores_slot_1 ClearFHE ClearFHE_lawful
           b0 b1 b1' rest).
Defined.

Lemma X21_witness :
  let b0 := clear_bid 10 11 in
  let b1 := clear_bid 30 12 in
  let rest := [clear_bid 20 13] in
  let t := tournament b0 b1 rest in
  let amount b := @FHE.decrypt ClearFHE (encryptedBidAmount b) in
  (Forall (λ b, amount b ≤ amount b0) rest
   ∧ @FHE.decrypt ClearFHE (encryptedHighestBidAmount t) = amount b0
   ∧ @FHE.decrypt ClearFHE (encryptedSecondHighestBidAmount t) = amount b1)
  ∨ (Exists (λ b, amount b0 < amount b) rest
     ∧ amount b0 ≤ @FHE.decrypt ClearFHE (encryptedSecondHighestBidAmount t)
     ∧ @FHE.decrypt ClearFHE (encryptedSecondHighestBidAmount t)
       < @FHE.decrypt ClearFHE (encryptedHighestBidAmount t)).
Proof.
  intros b0 b1 rest.
  apply (@X21_exported_second ClearFHE ClearFHE_lawful b0 b1 rest).
Defined.

End ExtraWitnesses.
